(** * Event systems of the "cppdmeta" article: runtime.cpp and hana.cpp

    Two implementations of one callback registry are embedded here.

    - [Runtime] is [struct event_system] of runtime.cpp: the events are
      [std::string]s given to the constructor, and every [on] and [trigger]
      looks the event up in a [std::unordered_map] and [assert]s that it was
      found.
    - [Hana] is [template <typename ...Events> struct event_system] of
      hana.cpp: the events are the types of a parameter pack, the callback
      vectors live in a [hana::map] keyed by those types, membership is a
      [static_assert], and a second [std::unordered_map] from the text of
      each key to a pointer to its vector serves [trigger(std::string)].

    Conventions of the embedding.

    - A callback is a [std::function<void()>]: it has no argument and no
      result, so all it can do is change the world around it.  The world is
      an arbitrary type [World]; the callbacks are an arbitrary type
      [Callback] with an interpretation [call : Callback -> World -> World].
      The registry is not a part of [World]: callbacks that re-enter the
      registry they are stored in are outside the model.
    - Member functions are state passing functions on pairs of the object
      and the world.
    - [assert] is taken as compiled in (neither file defines [NDEBUG]): a
      failed assertion ends the run, with its message, in the world reached
      so far.
    - A [std::string] can hold any characters.  One that is made from a
      [char const*], as the keys of [dynamic_] are made from
      [event.c_str()], holds the characters before the first NUL.
    - A pointer to one of the vectors of [map_] is the position of that
      vector in [map_].  The object is taken to stay where it was
      constructed ([make_event_system] returns it by [return {}], which
      constructs it in place), so these pointers are never stale. *)

From stdpp Require Import base strings list gmap vector fin.

Set Default Proof Using "Type".

(** ** What the two files share: the C++ library pieces *)

(** How a member function can end: it returns, or an [assert] fails. *)
Inductive outcome (World S : Type) : Type :=
| Done (s : S)
| Aborted (msg : string) (w : World).
Arguments Done {World S} s.
Arguments Aborted {World S} msg w.

Definition bind_outcome {World S T : Type}
    (o : outcome World S) (k : S → outcome World T) : outcome World T :=
  match o with
  | Done s => k s
  | Aborted msg w => Aborted msg w
  end.

(** [std::unordered_map::insert]: the pair is inserted only when the map
    has no element with that key. *)
Definition umap_insert {V : Type} (k : string) (v : V)
    (m : gmap string V) : gmap string V :=
  match m !! k with
  | Some _ => m
  | None => <[k := v]> m
  end.

(** The [std::string] made from a [char const*]: the characters up to the
    first NUL, which is where a C string ends. *)
Fixpoint to_std_string (chars : string) : string :=
  match chars with
  | EmptyString => EmptyString
  | String c rest =>
      if Ascii.eqb c Ascii.zero then EmptyString
      else String c (to_std_string rest)
  end.

(** A text without NUL: as a C string it is read back whole. *)
Definition nul_free (chars : string) : Prop := to_std_string chars = chars.

(** [for (auto& callback : callbacks) callback();] *)
Fixpoint invoke_each {World Callback : Type} (call : Callback → World → World)
    (callbacks : list Callback) (w : World) : World :=
  match callbacks with
  | [] => w
  | callback :: rest => invoke_each call rest (call callback w)
  end.

(** The world that only remembers which callbacks ran, in the order in
    which they ran. *)
Definition record {Callback : Type} (c : Callback) (log : list Callback)
    : list Callback :=
  log ++ [c].

(** ** runtime.cpp *)

Module Runtime.

Section event_system.
Context {World Callback : Type}.
Variable call : Callback → World → World.

(** [std::unordered_map<std::string, std::vector<Callback>> map_;] *)
Record event_system : Type := Build {
  map_ : gmap string (list Callback)
}.

(** [explicit event_system(std::initializer_list<std::string> events)] *)
Definition make_event_system (events : list string) : event_system :=
  {| map_ := foldl (λ m event, umap_insert event [] m) ∅ events |}.

(** [void on(std::string const& event, F callback)] *)
Definition on (event : string) (callback : Callback)
    (st : event_system * World) : outcome World (event_system * World) :=
  let '(self, w) := st in
  match map_ self !! event with
  | None => Aborted "trying to add a callback to an unknown event" w
  | Some callbacks =>
      Done ({| map_ := <[event := callbacks ++ [callback]]> (map_ self) |}, w)
  end.

(** [void trigger(std::string const& event)] *)
Definition trigger (event : string)
    (st : event_system * World) : outcome World (event_system * World) :=
  let '(self, w) := st in
  match map_ self !! event with
  | None => Aborted "trying to trigger an unknown event" w
  | Some callbacks => Done (self, invoke_each call callbacks w)
  end.

(** A client of the class: a sequence of calls of its member functions, as
    in [main]. *)
Inductive stmt : Type :=
| On (event : string) (callback : Callback)
| Trigger (event : string).

Definition step (s : stmt) (st : event_system * World)
    : outcome World (event_system * World) :=
  match s with
  | On event callback => on event callback st
  | Trigger event => trigger event st
  end.

Fixpoint run (p : list stmt) (st : event_system * World)
    : outcome World (event_system * World) :=
  match p with
  | [] => Done st
  | s :: rest => bind_outcome (step s st) (run rest)
  end.

(** The callbacks a client registers for [event], in program order. *)
Fixpoint registered (event : string) (p : list stmt) : list Callback :=
  match p with
  | [] => []
  | On e c :: rest =>
      if decide (e = event) then c :: registered event rest
      else registered event rest
  | Trigger _ :: rest => registered event rest
  end.

(** The events a client names. *)
Definition event_of (s : stmt) : string :=
  match s with
  | On event _ => event
  | Trigger event => event
  end.

End event_system.

Arguments event_system : clear implicits.
Arguments stmt : clear implicits.

End Runtime.

(** ** hana.cpp *)

Module Hana.

(** [hana::contains(map_, e)]: is the compile-time string [e] one of the
    keys of the map, that is one of [Events...]. *)
Fixpoint contains (Events : list string) (e : string) : bool :=
  match Events with
  | [] => false
  | k :: rest => if String.eqb e k then true else contains rest e
  end.

(** The types that pass [static_assert(is_known_event, ...)]: an [Event]
    for which [hana::contains(map_, e)] is true. *)
Definition key (Events : list string) : Type :=
  { e : string | contains Events e = true }.

(** [event.c_str()]: the array of the characters of the key, all of them
    (a NUL follows the last). *)
Definition c_str {Events : list string} (event : key Events) : string :=
  proj1_sig event.

(** Where [map_[e]] is: the position in the pack of the first key equal to
    [e].  The search is the compiler's; for an [e] that is not a key there
    is nothing to return, and [map_[e]] does not compile. *)
Fixpoint at_key (Events : list string) (e : string)
    : contains Events e = true → fin (length Events) :=
  match Events with
  | [] => λ known, False_rect _ (Bool.diff_false_true known)
  | k :: rest =>
      λ known,
        (if String.eqb e k as b
           return (if b then true else contains rest e) = true →
                  fin (S (length rest))
         then λ _, 0%fin
         else λ known', FS (at_key rest e known')) known
  end.

(** Evaluating the [static_assert] on an identifier: the key when it
    passes. *)
Definition check_key (Events : list string) (e : string)
    : option (key Events) :=
  match Sumbool.sumbool_of_bool (contains Events e) with
  | left known => Some (e ↾ known)
  | right _ => None
  end.

(** [hana::keys(map_)] *)
Definition keys (Events : list string) : list (key Events) :=
  omap (check_key Events) Events.

Section event_system.
Context {World Callback : Type}.
Variable call : Callback → World → World.
Variable Events : list string.

(** [hana::map<hana::pair<Events, std::vector<Callback>>...> map_;]
    [std::unordered_map<std::string, std::vector<Callback>* const> dynamic_;] *)
Record event_system : Type := Build {
  map_ : vec (list Callback) (length Events);
  dynamic_ : gmap string (fin (length Events))
}.

(** [&map_[event]] *)
Definition address_of (event : key Events) : fin (length Events) :=
  at_key Events (proj1_sig event) (proj2_sig event).

(** [event_system()], which is all [make_event_system] runs.  The pair
    given to [insert] holds a [std::string] made from [event.c_str()]. *)
Definition make_event_system : event_system :=
  {| map_ := vreplicate (length Events) [];
     dynamic_ :=
       foldl (λ d event,
                umap_insert (to_std_string (c_str event)) (address_of event) d)
             ∅ (keys Events) |}.

(** [void on(Event e, F callback)] *)
Definition on (e : key Events) (callback : Callback)
    (st : event_system * World) : event_system * World :=
  let '(self, w) := st in
  let slot := address_of e in
  ({| map_ := vinsert slot (map_ self !!! slot ++ [callback]) (map_ self);
      dynamic_ := dynamic_ self |}, w).

(** [void trigger(Event e) const] *)
Definition trigger (e : key Events)
    (st : event_system * World) : event_system * World :=
  let '(self, w) := st in
  (self, invoke_each call (map_ self !!! address_of e) w).

(** [void trigger(std::string const& event)] *)
Definition trigger_str (event : string)
    (st : event_system * World) : outcome World (event_system * World) :=
  let '(self, w) := st in
  match dynamic_ self !! event with
  | None => Aborted "trying to trigger an unknown event" w
  | Some callbacks => Done (self, invoke_each call (map_ self !!! callbacks) w)
  end.

(** A client as it is written: calls of the member functions on
    identifiers that have not been checked yet.  [On] and [Trigger] take a
    compile-time string (["foo"_s]), [TriggerStr] a [std::string]. *)
Inductive stmt : Type :=
| On (e : string) (callback : Callback)
| Trigger (e : string)
| TriggerStr (event : string).

(** A client that has been built: every [static_assert] it instantiates
    has passed. *)
Inductive built_stmt : Type :=
| BOn (e : key Events) (callback : Callback)
| BTrigger (e : key Events)
| BTriggerStr (event : string).

(** Building one call: the member templates are instantiated and their
    [static_assert]s evaluated; [trigger(std::string const&)] has none. *)
Definition build_stmt (s : stmt) : option built_stmt :=
  match s with
  | On e callback => (λ k, BOn k callback) <$> check_key Events e
  | Trigger e => BTrigger <$> check_key Events e
  | TriggerStr event => Some (BTriggerStr event)
  end.

(** Building a client: every call has to build. *)
Definition build (p : list stmt) : option (list built_stmt) :=
  mapM build_stmt p.

Definition step (s : built_stmt) (st : event_system * World)
    : outcome World (event_system * World) :=
  match s with
  | BOn e callback => Done (on e callback st)
  | BTrigger e => Done (trigger e st)
  | BTriggerStr event => trigger_str event st
  end.

Fixpoint run (p : list built_stmt) (st : event_system * World)
    : outcome World (event_system * World) :=
  match p with
  | [] => Done st
  | s :: rest => bind_outcome (step s st) (run rest)
  end.

(** The callbacks a built client registers for the key whose text is
    [event], in program order. *)
Fixpoint registered (event : string) (p : list built_stmt) : list Callback :=
  match p with
  | [] => []
  | BOn e c :: rest =>
      if decide (c_str e = event) then c :: registered event rest
      else registered event rest
  | _ :: rest => registered event rest
  end.

(** The identifiers a call hands to a member template, the ones a
    [static_assert] looks at. *)
Definition static_idents (s : stmt) : list string :=
  match s with
  | On e _ => [e]
  | Trigger e => [e]
  | TriggerStr _ => []
  end.

(** All the events a call names, checked or not. *)
Definition event_of (s : stmt) : string :=
  match s with
  | On e _ => e
  | Trigger e => e
  | TriggerStr event => event
  end.

(** The same client written against runtime.cpp: both ways of triggering
    become its one [trigger]. *)
Definition to_runtime (s : stmt) : Runtime.stmt Callback :=
  match s with
  | On e callback => Runtime.On e callback
  | Trigger e => Runtime.Trigger e
  | TriggerStr event => Runtime.Trigger event
  end.

End event_system.

Arguments event_system : clear implicits.
Arguments stmt : clear implicits.
Arguments built_stmt : clear implicits.
Arguments map_ {Callback Events} _.
Arguments dynamic_ {Callback Events} _.

End Hana.

(** ** The two [main] functions

    Every callback of the two [main]s prints one line on [std::cout]: a
    callback is the line it prints, the world is what has been printed, and
    calling a callback is [record]. *)

Definition main_events : list string := ["foo"; "bar"; "baz"].

(** [main] of runtime.cpp *)
Definition runtime_main : list (Runtime.stmt string) :=
  [Runtime.On "foo" "foo triggered!";
   Runtime.On "foo" "foo again!";
   Runtime.On "bar" "bar triggered!";
   Runtime.On "baz" "baz triggered!";
   Runtime.Trigger "foo";
   Runtime.Trigger "baz";
   Runtime.Trigger "unknown"].

(** [main] of hana.cpp, without [BENCHMARK] *)
Definition hana_main : list (Hana.stmt string) :=
  [Hana.On "foo" "foo triggered!";
   Hana.On "foo" "foo again!";
   Hana.On "bar" "bar triggered!";
   Hana.On "baz" "baz triggered!";
   Hana.Trigger "foo";
   Hana.Trigger "bar";
   Hana.TriggerStr "baz"].

(** The keys ["foo"_s], ["bar"_s] and ["baz"_s] of [hana_main]. *)
Definition foo_s : Hana.key main_events := "foo" ↾ eq_refl.
Definition bar_s : Hana.key main_events := "bar" ↾ eq_refl.
Definition baz_s : Hana.key main_events := "baz" ↾ eq_refl.

(** [hana_main] once built. *)
Definition hana_main_built : list (Hana.built_stmt string main_events) :=
  [Hana.BOn main_events foo_s "foo triggered!";
   Hana.BOn main_events foo_s "foo again!";
   Hana.BOn main_events bar_s "bar triggered!";
   Hana.BOn main_events baz_s "baz triggered!";
   Hana.BTrigger main_events foo_s;
   Hana.BTrigger main_events bar_s;
   Hana.BTriggerStr main_events "baz"].

(** The objects of the two [main]s once their four calls of [on] have
    returned. *)
Definition runtime_main_object : Runtime.event_system string :=
  match Runtime.run record (take 4 runtime_main)
          (Runtime.make_event_system main_events, []) with
  | Done (r, _) => r
  | Aborted _ _ => Runtime.make_event_system main_events
  end.

Definition hana_main_object : Hana.event_system string main_events :=
  match Hana.run record main_events (take 4 hana_main_built)
          (Hana.make_event_system main_events, []) with
  | Done (h, _) => h
  | Aborted _ _ => Hana.make_event_system main_events
  end.

(** ** Events with a NUL in their name

    [make_event_system("a\0b"_s, "a\0c"_s)]: two keys that are different
    types and read alike as C strings. *)
Definition a_nul_b : string := String.append "a" (String Ascii.zero "b").
Definition a_nul_c : string := String.append "a" (String Ascii.zero "c").
Definition nul_events : list string := [a_nul_b; a_nul_c].
Definition a_nul_b_s : Hana.key nul_events := a_nul_b ↾ eq_refl.
Definition a_nul_c_s : Hana.key nul_events := a_nul_c ↾ eq_refl.

(** ** The callbacks a client of runtime.cpp makes run

    [invoked seen p] lists, in order, the callbacks that the calls of
    [trigger] in [p] reach, when the calls in [seen] have been made before
    [p]: a [trigger] reaches what has been registered for its event so
    far. *)
Fixpoint invoked {Callback : Type} (seen p : list (Runtime.stmt Callback))
    : list Callback :=
  match p with
  | [] => []
  | Runtime.On event callback :: rest =>
      invoked (seen ++ [Runtime.On event callback]) rest
  | Runtime.Trigger event :: rest =>
      Runtime.registered event seen ++ invoked seen rest
  end.

(** ** [main] of hana.cpp with [BENCHMARK]

    The three timed loops, without the clock.  [for_loop n body] is
    [for (int i = 0; i < n; i++) body] for a body that does not read [i]. *)
Fixpoint for_loop {World S : Type} (n : nat) (body : S → outcome World S)
    (st : S) : outcome World S :=
  match n with
  | O => Done st
  | S n' => bind_outcome (body st) (for_loop n' body)
  end.

Module Bench.

Section bench.
Context {World Callback : Type}.
Variable call : Callback → World → World.
(** The lambdas given to [on], and [foo_fun], [bar_fun] and [baz_fun]. *)
Variables foo_cb bar_cb baz_cb foo_fun bar_fun baz_fun : Callback.

(** [events.on("foo"_s, [](){}); events.on("bar"_s, [](){});
    events.on("baz"_s, [](){});] *)
Definition setup : list (Hana.built_stmt Callback main_events) :=
  [Hana.BOn main_events foo_s foo_cb;
   Hana.BOn main_events bar_s bar_cb;
   Hana.BOn main_events baz_s baz_cb].

(** The body of the first loop: [events.trigger(foos); ...] on
    [std::string]s. *)
Definition string_round : list (Hana.built_stmt Callback main_events) :=
  [Hana.BTriggerStr main_events "foo";
   Hana.BTriggerStr main_events "bar";
   Hana.BTriggerStr main_events "foo";
   Hana.BTriggerStr main_events "bar";
   Hana.BTriggerStr main_events "baz"].

(** The body of the second loop: [events.trigger("foo"_s); ...] *)
Definition static_round : list (Hana.built_stmt Callback main_events) :=
  [Hana.BTrigger main_events foo_s;
   Hana.BTrigger main_events bar_s;
   Hana.BTrigger main_events foo_s;
   Hana.BTrigger main_events bar_s;
   Hana.BTrigger main_events baz_s].

(** The body of the third loop: [foo_fun(); bar_fun(); foo_fun();
    bar_fun(); baz_fun();] *)
Definition direct_round (w : World) : World :=
  call baz_fun (call bar_fun (call foo_fun (call bar_fun (call foo_fun w)))).

Definition string_loop (n : nat)
    (st : Hana.event_system Callback main_events * World)
    : outcome World (Hana.event_system Callback main_events * World) :=
  for_loop n (Hana.run call main_events string_round) st.

Definition static_loop (n : nat)
    (st : Hana.event_system Callback main_events * World)
    : outcome World (Hana.event_system Callback main_events * World) :=
  for_loop n (Hana.run call main_events static_round) st.

Definition direct_loop (n : nat) (w : World) : World :=
  Nat.iter n direct_round w.

(** [main]: the object is made and set up, then the three loops run one
    after the other. *)
Definition main (n : nat) (w : World)
    : outcome World (Hana.event_system Callback main_events * World) :=
  bind_outcome
    (Hana.run call main_events setup (Hana.make_event_system main_events, w))
    (λ st1, bind_outcome (string_loop n st1)
      (λ st2, bind_outcome (static_loop n st2)
        (λ st3, Done (fst st3, direct_loop n (snd st3))))).

End bench.

End Bench.

(** ** Facts about the shared pieces *)

Section shared_facts.
Context {World Callback : Type}.
Implicit Types (call : Callback → World → World) (w : World).

Lemma invoke_each_app call (xs ys : list Callback) w :
  invoke_each call (xs ++ ys) w = invoke_each call ys (invoke_each call xs w).
Proof. revert w. induction xs as [|x xs IH]; intros w; simpl; [done|apply IH]. Qed.

Lemma invoke_each_foldl call (xs : list Callback) w :
  invoke_each call xs w = foldl (λ w c, call c w) w xs.
Proof. revert w. induction xs as [|x xs IH]; intros w; simpl; [done|apply IH]. Qed.

Lemma invoke_each_record (xs log : list Callback) :
  invoke_each record xs log = log ++ xs.
Proof.
  revert log. induction xs as [|x xs IH]; intros log; simpl.
  - by rewrite app_nil_r.
  - rewrite IH. unfold record. by rewrite <- app_assoc.
Qed.

Lemma bind_outcome_Done {S T : Type} (o : outcome World S)
    (k : S → outcome World T) (t : T) :
  bind_outcome o k = Done t → ∃ s, o = Done s ∧ k s = Done t.
Proof. destruct o as [s|msg w]; simpl; [eauto|done]. Qed.

End shared_facts.

Section umap_facts.
Context {V : Type}.
Implicit Types (m : gmap string V) (k : string) (v : V).

Lemma umap_insert_present m k v v' :
  m !! k = Some v → umap_insert k v' m = m.
Proof. intros Hk. unfold umap_insert. by rewrite Hk. Qed.

Lemma umap_insert_absent m k v :
  m !! k = None → umap_insert k v m = <[k := v]> m.
Proof. intros Hk. unfold umap_insert. by rewrite Hk. Qed.

Lemma lookup_umap_insert m k v k' :
  umap_insert k v m !! k' =
    match m !! k' with
    | Some old => Some old
    | None => if decide (k = k') then Some v else None
    end.
Proof.
  unfold umap_insert. destruct (m !! k) as [old|] eqn:Hk.
  - destruct (m !! k') eqn:Hk'; [done|].
    destruct (decide (k = k')); [congruence|done].
  - rewrite lookup_insert. case_decide as Heq.
    + subst k'. by rewrite Hk.
    + by destruct (m !! k').
Qed.

Lemma dom_umap_insert m k v : dom (umap_insert k v m) = {[k]} ∪ dom m.
Proof.
  unfold umap_insert. destruct (m !! k) as [old|] eqn:Hk.
  - apply set_eq. intros x. rewrite elem_of_union, elem_of_singleton.
    split; [by right|]. intros [->|Hx]; [|done]. by apply elem_of_dom_2 with old.
  - by rewrite dom_insert_L.
Qed.

End umap_facts.

(** ** Facts about runtime.cpp *)

Section runtime_facts.
Context {World Callback : Type}.
Variable call : Callback → World → World.
Implicit Types (r : Runtime.event_system Callback) (w : World).
Implicit Types (p : list (Runtime.stmt Callback)).

Lemma runtime_ctor_fold (events : list string)
    (m : gmap string (list Callback)) (e : string) :
  foldl (λ m event, umap_insert event [] m) m events !! e =
    match m !! e with
    | Some old => Some old
    | None => if decide (e ∈ events) then Some [] else None
    end.
Proof.
  revert m. induction events as [|k events IH]; intros m; simpl.
  - destruct (m !! e); [done|].
    destruct (decide (e ∈ [])) as [Hin|_]; [|done]. by apply elem_of_nil in Hin.
  - rewrite IH, lookup_umap_insert. destruct (m !! e) as [old|]; [done|].
    destruct (decide (k = e)) as [->|Hne].
    + by rewrite decide_True by (apply elem_of_cons; by left).
    + destruct (decide (e ∈ events)) as [Hin|Hout].
      * by rewrite decide_True by (apply elem_of_cons; by right).
      * rewrite decide_False; [done|].
        intros [->|Hin]%elem_of_cons; [by apply Hne|by apply Hout].
Qed.

Lemma runtime_ctor_lookup (events : list string) (e : string) :
  Runtime.map_ (Runtime.make_event_system (Callback:=Callback) events) !! e =
    if decide (e ∈ events) then Some [] else None.
Proof. simpl. by rewrite runtime_ctor_fold, lookup_empty. Qed.

Lemma runtime_ctor_dom (events : list string) :
  dom (Runtime.map_ (Runtime.make_event_system (Callback:=Callback) events))
  = list_to_set events.
Proof.
  apply set_eq. intros e. rewrite elem_of_dom, runtime_ctor_lookup.
  rewrite elem_of_list_to_set. destruct (decide (e ∈ events)).
  - split; [done|]. by eexists.
  - split; [|done]. by intros [? ?].
Qed.

(** What one call does to the map, when it returns. *)
Lemma runtime_step_lookup s r w r' w' (e : string) :
  Runtime.step call s (r, w) = Done (r', w') →
  Runtime.map_ r' !! e =
    (λ l, l ++ Runtime.registered e [s]) <$> Runtime.map_ r !! e.
Proof.
  destruct s as [event c|event]; simpl.
  - destruct (Runtime.map_ r !! event) as [l|] eqn:Hl; [|done].
    intros [= <- <-]. simpl. rewrite lookup_insert.
    destruct (decide (event = e)) as [->|Hne].
    + by rewrite Hl.
    + destruct (Runtime.map_ r !! e); simpl; [|done]. by rewrite app_nil_r.
  - destruct (Runtime.map_ r !! event) as [l|] eqn:Hl; [|done].
    intros [= <- <-]. destruct (Runtime.map_ r !! e); simpl; [|done].
    by rewrite app_nil_r.
Qed.

Lemma runtime_registered_cons s p (e : string) :
  Runtime.registered e (s :: p)
  = Runtime.registered e [s] ++ Runtime.registered e p.
Proof. destruct s as [event c|event]; simpl; [|done]. by case_decide. Qed.

(** What a client does to the map, when it returns: every list has grown
    by the callbacks the client registered for its key, and nothing else
    has changed. *)
Lemma runtime_run_lookup p r w r' w' (e : string) :
  Runtime.run call p (r, w) = Done (r', w') →
  Runtime.map_ r' !! e =
    (λ l, l ++ Runtime.registered e p) <$> Runtime.map_ r !! e.
Proof.
  revert r w. induction p as [|s p IH]; intros r w.
  - intros [= <- <-]. destruct (Runtime.map_ r !! e); simpl; [|done].
    by rewrite app_nil_r.
  - rewrite runtime_registered_cons. cbn [Runtime.run].
    intros ([r1 w1] & Hstep & Hrun)%bind_outcome_Done.
    rewrite (IH _ _ Hrun), (runtime_step_lookup _ _ _ _ _ e Hstep).
    destruct (Runtime.map_ r !! e); cbn -[Runtime.registered]; [|done].
    by rewrite app_assoc.
Qed.

Lemma runtime_run_dom p r w r' w' :
  Runtime.run call p (r, w) = Done (r', w') →
  dom (Runtime.map_ r') = dom (Runtime.map_ r).
Proof.
  intros Hrun. apply set_eq. intros e. rewrite !elem_of_dom.
  rewrite (runtime_run_lookup _ _ _ _ _ e Hrun). apply fmap_is_Some.
Qed.

Lemma runtime_run_app p q r w :
  Runtime.run call (p ++ q) (r, w)
  = bind_outcome (Runtime.run call p (r, w)) (Runtime.run call q).
Proof.
  revert r w. induction p as [|s p IH]; intros r w; simpl; [done|].
  destruct (Runtime.step call s (r, w)) as [[r1 w1]|msg w1]; simpl; [|done].
  apply IH.
Qed.

(** A client that names known events only returns. *)
Lemma runtime_run_known p r w :
  Forall (λ s, Runtime.event_of s ∈ dom (Runtime.map_ r)) p →
  ∃ r' w', Runtime.run call p (r, w) = Done (r', w').
Proof.
  revert r w. induction p as [|s p IH]; intros r w Hp; simpl; [by eauto|].
  inversion Hp as [|? ? Hs Hp']; subst.
  apply elem_of_dom in Hs as [l Hl].
  assert (∃ r1 w1, Runtime.step call s (r, w) = Done (r1, w1)) as (r1 & w1 & Hstep).
  { destruct s as [event c|event]; simpl in *; rewrite Hl; eauto. }
  rewrite Hstep. simpl. apply IH.
  assert (dom (Runtime.map_ r1) = dom (Runtime.map_ r)) as ->; [|exact Hp'].
  apply (runtime_run_dom [s] r w r1 w1). simpl. by rewrite Hstep.
Qed.

End runtime_facts.

(** ** Facts about hana.cpp: the compile-time part *)

Section hana_key_facts.
Variable Events : list string.
Implicit Types (e s : string) (k : Hana.key Events).

Lemma contains_elem_of (E : list string) e :
  Hana.contains E e = true ↔ e ∈ E.
Proof.
  induction E as [|x E IH]; simpl.
  - split; [done|]. by intros ?%elem_of_nil.
  - rewrite elem_of_cons. destruct (String.eqb e x) eqn:Heq.
    + apply String.eqb_eq in Heq. split; [by left|done].
    + apply String.eqb_neq in Heq. rewrite IH. split; [by right|].
      by intros [?|?].
Qed.

Lemma contains_not_elem_of (E : list string) e :
  Hana.contains E e = false ↔ e ∉ E.
Proof.
  rewrite <- contains_elem_of. by destruct (Hana.contains E e).
Qed.

(** The slot found for [e] holds the key [e]. *)
Lemma at_key_lookup (E : list string) e (known : Hana.contains E e = true) :
  E !! fin_to_nat (Hana.at_key E e known) = Some e.
Proof.
  induction E as [|x E IH]; [done|].
  revert known. simpl. destruct (String.eqb e x) eqn:Heq; intros known.
  - apply String.eqb_eq in Heq. by subst.
  - simpl. apply IH.
Qed.

(** A key is its text: the evidence that it passed the check carries no
    information. *)
Lemma key_eq k1 k2 : Hana.c_str k1 = Hana.c_str k2 → k1 = k2.
Proof. intros Heq. by apply (sig_eq_pi _). Qed.

Lemma address_of_inj k1 k2 :
  Hana.address_of Events k1 = Hana.address_of Events k2 → k1 = k2.
Proof.
  intros Heq. apply key_eq. destruct k1 as [e1 H1], k2 as [e2 H2].
  unfold Hana.address_of in Heq. simpl in *.
  pose proof (at_key_lookup Events e1 H1) as L1.
  pose proof (at_key_lookup Events e2 H2) as L2.
  rewrite Heq in L1. congruence.
Qed.

Lemma key_elem_of k : Hana.c_str k ∈ Events.
Proof. destruct k as [e known]. simpl. by apply contains_elem_of. Qed.

Lemma check_key_c_str k : Hana.check_key Events (Hana.c_str k) = Some k.
Proof.
  unfold Hana.check_key.
  destruct (Sumbool.sumbool_of_bool _) as [known|unknown].
  - f_equal. by apply key_eq.
  - destruct k as [e known]. simpl in *. congruence.
Qed.

Lemma check_key_Some e k :
  Hana.check_key Events e = Some k → Hana.c_str k = e.
Proof.
  unfold Hana.check_key.
  destruct (Sumbool.sumbool_of_bool _) as [known|unknown]; [|done].
  by intros [= <-].
Qed.

Lemma check_key_known e :
  e ∈ Events → ∃ k, Hana.check_key Events e = Some k ∧ Hana.c_str k = e.
Proof.
  intros known%contains_elem_of. exists (e ↾ known). split; [|done].
  apply (check_key_c_str (e ↾ known)).
Qed.

Lemma check_key_unknown e : e ∉ Events → Hana.check_key Events e = None.
Proof.
  intros Hout. destruct (Hana.check_key Events e) as [k|] eqn:Hk; [|done].
  apply check_key_Some in Hk as <-. destruct Hout. apply key_elem_of.
Qed.

Lemma check_key_is_Some e : is_Some (Hana.check_key Events e) ↔ e ∈ Events.
Proof.
  split.
  - intros [k Hk]. apply check_key_Some in Hk as <-. apply key_elem_of.
  - intros (k & Hk & _)%check_key_known. by exists k.
Qed.

(** [hana::keys(map_)] lists the pack, in its order. *)
Lemma keys_c_str : Hana.c_str <$> Hana.keys Events = Events.
Proof.
  unfold Hana.keys.
  assert (∀ l : list string, (∀ e, e ∈ l → e ∈ Events) →
            Hana.c_str <$> omap (Hana.check_key Events) l = l) as Hgen.
  { induction l as [|x l IH]; intros Hl; [done|]. simpl.
    destruct (check_key_known x) as (k & -> & Hk).
    - apply Hl, elem_of_cons. by left.
    - simpl. f_equal; [done|]. apply IH.
      intros e He. apply Hl, elem_of_cons. by right. }
  by apply Hgen.
Qed.

End hana_key_facts.

(** ** Facts about hana.cpp: the run-time part *)

Section hana_facts.
Context {World Callback : Type}.
Variable call : Callback → World → World.
Variable Events : list string.
Implicit Types (r : Hana.event_system Callback Events) (w : World).
Implicit Types (b : list (Hana.built_stmt Callback Events)).
Implicit Types (k : Hana.key Events) (s : string).

Lemma hana_ctor_fold_dom (ks : list (Hana.key Events))
    (d : gmap string (fin (length Events))) :
  dom (foldl (λ d event, umap_insert (to_std_string (Hana.c_str event))
                                     (Hana.address_of Events event) d) d ks)
  = dom d ∪ list_to_set ((λ k, to_std_string (Hana.c_str k)) <$> ks).
Proof.
  revert d. induction ks as [|k ks IH]; intros d.
  - simpl. by rewrite (right_id_L ∅ (∪)).
  - cbn [foldl]. rewrite IH, dom_umap_insert, fmap_cons, list_to_set_cons.
    by rewrite (assoc_L (∪)), (comm_L (∪) {[_]} (dom d)).
Qed.

Lemma hana_ctor_fold_Some (ks : list (Hana.key Events))
    (d : gmap string (fin (length Events))) s a :
  foldl (λ d event, umap_insert (to_std_string (Hana.c_str event))
                                (Hana.address_of Events event) d) d ks !! s
    = Some a →
  d !! s = Some a
  ∨ ∃ k, k ∈ ks ∧ to_std_string (Hana.c_str k) = s
         ∧ a = Hana.address_of Events k.
Proof.
  revert d. induction ks as [|k ks IH]; intros d; [by left|].
  cbn [foldl]. intros [Hd|(k' & Hin & Hs & Ha)]%IH.
  - rewrite lookup_umap_insert in Hd. destruct (d !! s) as [old|]; [by left|].
    destruct (decide (to_std_string (Hana.c_str k) = s)) as [Hs|]; [|done].
    injection Hd as <-. right. exists k. split; [|done].
    apply elem_of_cons. by left.
  - right. exists k'. split; [|done]. apply elem_of_cons. by right.
Qed.

Lemma nul_free_fmap (l : list string) :
  Forall nul_free l → to_std_string <$> l = l.
Proof.
  induction 1 as [|x l Hx _ IH]; [done|]. unfold nul_free in Hx.
  by rewrite fmap_cons, Hx, IH.
Qed.

(** The texts in the index built by the constructor are the keys read as C
    strings. *)
Lemma hana_ctor_dom_texts :
  dom (Hana.dynamic_ (Hana.make_event_system (Callback:=Callback) Events))
  = list_to_set (to_std_string <$> Events).
Proof.
  cbn [Hana.make_event_system Hana.dynamic_].
  rewrite hana_ctor_fold_dom, dom_empty_L, (left_id_L ∅ (∪)).
  replace (to_std_string <$> Events)
    with (to_std_string <$> (Hana.c_str <$> Hana.keys Events))
    by (by rewrite keys_c_str).
  by rewrite <- list_fmap_compose.
Qed.

(** A pointer in that index is the address of the vector of a key that
    reads, as a C string, as the text it is stored for. *)
Lemma hana_ctor_dynamic_Some s a :
  Hana.dynamic_ (Hana.make_event_system (Callback:=Callback) Events) !! s
    = Some a →
  ∃ k, to_std_string (Hana.c_str k) = s ∧ a = Hana.address_of Events k.
Proof.
  cbn [Hana.make_event_system Hana.dynamic_].
  intros [Hd|(k & _ & Hs & Ha)]%hana_ctor_fold_Some.
  - by rewrite lookup_empty in Hd.
  - by exists k.
Qed.

(** When no key holds a NUL, the index built by the constructor sends the
    text of every key to the address of that key's vector, and nothing
    else anywhere. *)
Lemma hana_ctor_dynamic s :
  Forall nul_free Events →
  Hana.dynamic_ (Hana.make_event_system (Callback:=Callback) Events) !! s
  = Hana.address_of Events <$> Hana.check_key Events s.
Proof.
  intros Hfree.
  destruct (Hana.dynamic_ (Hana.make_event_system Events) !! s) as [a|] eqn:Hd.
  - apply hana_ctor_dynamic_Some in Hd as (k & Hs & ->).
    assert (nul_free (Hana.c_str k)) as Hk.
    { rewrite list.Forall_forall in Hfree. apply Hfree, key_elem_of. }
    rewrite Hk in Hs. subst s. by rewrite check_key_c_str.
  - apply not_elem_of_dom in Hd.
    rewrite hana_ctor_dom_texts, nul_free_fmap in Hd by done.
    rewrite elem_of_list_to_set in Hd. by rewrite check_key_unknown.
Qed.

Lemma hana_ctor_map (i : fin (length Events)) :
  Hana.map_ (Hana.make_event_system (Callback:=Callback) Events) !!! i = [].
Proof. apply vlookup_replicate. Qed.

Lemma hana_step_dynamic bs r w r' w' :
  Hana.step call Events bs (r, w) = Done (r', w') →
  Hana.dynamic_ r' = Hana.dynamic_ r.
Proof.
  destruct bs as [e c|e|event]; simpl.
  - by intros [= <- <-].
  - by intros [= <- <-].
  - destruct (Hana.dynamic_ r !! event); [|done]. by intros [= <- <-].
Qed.

Lemma hana_run_dynamic b r w r' w' :
  Hana.run call Events b (r, w) = Done (r', w') →
  Hana.dynamic_ r' = Hana.dynamic_ r.
Proof.
  revert r w. induction b as [|bs b IH]; intros r w; cbn [Hana.run].
  - by intros [= <- <-].
  - intros ([r1 w1] & Hstep & Hrun)%bind_outcome_Done.
    rewrite (IH _ _ Hrun). by apply hana_step_dynamic in Hstep.
Qed.

(** The index of an object a client has worked on is still the one the
    constructor built. *)
Lemma hana_run_bridge b w0 r w s :
  Forall nul_free Events →
  Hana.run call Events b (Hana.make_event_system Events, w0) = Done (r, w) →
  Hana.dynamic_ r !! s
  = Hana.address_of Events <$> Hana.check_key Events s.
Proof. intros Hfree ->%hana_run_dynamic. by apply hana_ctor_dynamic. Qed.

Lemma hana_registered_cons bs b s :
  Hana.registered Events s (bs :: b)
  = Hana.registered Events s [bs] ++ Hana.registered Events s b.
Proof. destruct bs as [e c|e|event]; simpl; [|done|done]. by case_decide. Qed.

Lemma hana_step_lookup bs r w r' w' k :
  Hana.step call Events bs (r, w) = Done (r', w') →
  Hana.map_ r' !!! Hana.address_of Events k
  = Hana.map_ r !!! Hana.address_of Events k
    ++ Hana.registered Events (Hana.c_str k) [bs].
Proof.
  destruct bs as [e c|e|event]; simpl.
  - intros [= <- <-]. simpl. destruct (decide (Hana.c_str e = Hana.c_str k)) as [Heq|Hne].
    + apply key_eq in Heq as ->. by rewrite vlookup_insert.
    + rewrite vlookup_insert_ne, app_nil_r; [done|].
      intros Heq%address_of_inj. by subst.
  - intros [= <- <-]. by rewrite app_nil_r.
  - destruct (Hana.dynamic_ r !! event); [|done]. intros [= <- <-].
    by rewrite app_nil_r.
Qed.

(** What a built client does to the vectors, when it returns: every vector
    has grown by the callbacks the client registered for its key. *)
Lemma hana_run_lookup b r w r' w' k :
  Hana.run call Events b (r, w) = Done (r', w') →
  Hana.map_ r' !!! Hana.address_of Events k
  = Hana.map_ r !!! Hana.address_of Events k
    ++ Hana.registered Events (Hana.c_str k) b.
Proof.
  revert r w. induction b as [|bs b IH]; intros r w.
  - intros [= <- <-]. simpl. by rewrite app_nil_r.
  - rewrite hana_registered_cons. cbn [Hana.run].
    intros ([r1 w1] & Hstep & Hrun)%bind_outcome_Done.
    rewrite (IH _ _ Hrun), (hana_step_lookup _ _ _ _ _ k Hstep).
    by rewrite app_assoc.
Qed.

Lemma hana_run_app b1 b2 r w :
  Hana.run call Events (b1 ++ b2) (r, w)
  = bind_outcome (Hana.run call Events b1 (r, w)) (Hana.run call Events b2).
Proof.
  revert r w. induction b1 as [|bs b1 IH]; intros r w; simpl; [done|].
  destruct (Hana.step call Events bs (r, w)) as [[r1 w1]|msg w1]; simpl; [|done].
  apply IH.
Qed.

End hana_facts.

(** ** Building clients of hana.cpp *)

Section hana_build_facts.
Context {World Callback : Type}.
Variable call : Callback → World → World.
Variable Events : list string.
Implicit Types (r : Hana.event_system Callback Events) (w : World).
Implicit Types (p : list (Hana.stmt Callback)).
Implicit Types (b : list (Hana.built_stmt Callback Events)).

Lemma build_stmt_is_Some (s : Hana.stmt Callback) :
  is_Some (Hana.build_stmt Events s)
  ↔ Forall (λ e, e ∈ Events) (Hana.static_idents s).
Proof.
  destruct s as [e c|e|event]; simpl.
  - rewrite fmap_is_Some, check_key_is_Some, Forall_singleton. done.
  - rewrite fmap_is_Some, check_key_is_Some, Forall_singleton. done.
  - split; [constructor|by eexists].
Qed.

Lemma build_is_Some p :
  is_Some (Hana.build Events p)
  ↔ Forall (λ s, Forall (λ e, e ∈ Events) (Hana.static_idents s)) p.
Proof.
  unfold Hana.build. rewrite mapM_is_Some. apply Forall_proper; [|done].
  intros s. apply build_stmt_is_Some.
Qed.

(** One identifier that fails its [static_assert] is enough for the client
    not to build. *)
Lemma build_unknown p (s : Hana.stmt Callback) (e : string) :
  s ∈ p → e ∈ Hana.static_idents s → e ∉ Events → Hana.build Events p = None.
Proof.
  intros Hs He Hout. apply eq_None_not_Some. intros Hb%build_is_Some.
  rewrite list.Forall_forall in Hb. specialize (Hb s Hs).
  rewrite list.Forall_forall in Hb. by apply Hout, Hb.
Qed.

Lemma build_stmt_TriggerStr (s : Hana.stmt Callback) (event : string) :
  Hana.build_stmt Events s = Some (Hana.BTriggerStr Events event) →
  s = Hana.TriggerStr event.
Proof.
  destruct s as [e c|e|ev]; simpl.
  - by destruct (Hana.check_key Events e).
  - by destruct (Hana.check_key Events e).
  - by intros [= ->].
Qed.

(** The only call of a built client that can fail is
    [trigger(std::string const&)], on a text that is not in the index. *)
Lemma hana_run_Aborted b r w msg w' :
  Hana.run call Events b (r, w) = Aborted msg w' →
  msg = "trying to trigger an unknown event" ∧
  ∃ event, Hana.BTriggerStr Events event ∈ b ∧ Hana.dynamic_ r !! event = None.
Proof.
  revert r w. induction b as [|bs b IH]; intros r w; cbn [Hana.run]; [done|].
  destruct (Hana.step call Events bs (r, w)) as [[r1 w1]|m w1] eqn:Hstep;
    cbn [bind_outcome].
  - intros (-> & event & Hin & Hev)%IH. split; [done|]. exists event.
    split; [apply elem_of_cons; by right|].
    by rewrite <- (hana_step_dynamic _ _ _ _ _ _ _ Hstep).
  - intros [= -> ->]. destruct bs as [e c|e|event]; simpl in Hstep; [done|done|].
    destruct (Hana.dynamic_ r !! event) eqn:Hev; [done|].
    injection Hstep as <- <-. split; [done|]. exists event.
    split; [apply elem_of_cons; by left|done].
Qed.

End hana_build_facts.

(** ** hana.cpp simulates runtime.cpp *)

Section simulation.
Context {World Callback : Type}.
Variable call : Callback → World → World.
Variable Events : list string.
Implicit Types (rt : Runtime.event_system Callback).
Implicit Types (hn : Hana.event_system Callback Events) (w : World).

(** The index is the one the constructor built. *)
Local Abbreviation bridged hn :=
  (∀ x : string, Hana.dynamic_ hn !! x
                 = Hana.address_of Events <$> Hana.check_key Events x).

(** The two objects hold the same callbacks under the same names. *)
Local Abbreviation related rt hn :=
  (∀ x : string, Runtime.map_ rt !! x
                 = (λ k, Hana.map_ hn !!! Hana.address_of Events k)
                     <$> Hana.check_key Events x).

(** The two outcomes show the same to an observer of the world. *)
Local Abbreviation agree hn o1 o2 :=
  (match o1, o2 with
   | Done (rt', w1), Done (hn', w2) =>
       w1 = w2 ∧ Hana.dynamic_ hn' = Hana.dynamic_ hn ∧ related rt' hn'
   | Aborted m1 w1, Aborted m2 w2 => m1 = m2 ∧ w1 = w2
   | _, _ => False
   end).

Lemma sim_ctor :
  related (Runtime.make_event_system (Callback:=Callback) Events)
          (Hana.make_event_system (Callback:=Callback) Events).
Proof.
  intros x. rewrite runtime_ctor_lookup.
  destruct (decide (x ∈ Events)) as [Hin|Hout].
  - destruct (check_key_known Events x Hin) as (k & -> & _). simpl.
    by rewrite vlookup_replicate.
  - by rewrite check_key_unknown.
Qed.

(** One call.  The index is looked at by [trigger(std::string const&)]
    only. *)
Lemma sim_step (s : Hana.stmt Callback) bs rt hn w :
  Hana.build_stmt Events s = Some bs →
  (∀ event, s = Hana.TriggerStr event → bridged hn) →
  related rt hn →
  agree hn (Runtime.step call (Hana.to_runtime s) (rt, w))
           (Hana.step call Events bs (hn, w)).
Proof.
  intros Hbuild Hbr Hrel. destruct s as [e c|e|event]; simpl in Hbuild.
  - destruct (Hana.check_key Events e) as [k|] eqn:Hk; [|done].
    injection Hbuild as <-. cbn. rewrite Hrel, Hk. cbn.
    split; [done|]. split; [done|]. intros x. rewrite lookup_insert.
    destruct (decide (e = x)) as [<-|Hne].
    + rewrite Hk. cbn. by rewrite vlookup_insert.
    + rewrite Hrel. destruct (Hana.check_key Events x) as [k'|] eqn:Hk'; [|done].
      cbn. rewrite vlookup_insert_ne; [done|].
      intros ->%address_of_inj. apply check_key_Some in Hk, Hk'. congruence.
  - destruct (Hana.check_key Events e) as [k|] eqn:Hk; [|done].
    injection Hbuild as <-. cbn. rewrite Hrel, Hk. cbn. done.
  - injection Hbuild as <-. cbn. rewrite Hrel, (Hbr event eq_refl).
    destruct (Hana.check_key Events event) as [k|]; cbn; done.
Qed.

Lemma sim_run (p : list (Hana.stmt Callback)) b rt hn w :
  Hana.build Events p = Some b →
  (∀ event, Hana.TriggerStr event ∈ p → bridged hn) →
  related rt hn →
  agree hn (Runtime.run call (Hana.to_runtime <$> p) (rt, w))
           (Hana.run call Events b (hn, w)).
Proof.
  unfold Hana.build. rewrite mapM_Some. intros Hall.
  revert rt hn w. induction Hall as [|s bs p b Hs Hall IH]; intros rt hn w Hbr Hrel.
  - cbn. done.
  - cbn [fmap list_fmap Runtime.run Hana.run].
    assert (∀ event, s = Hana.TriggerStr event →
              ∀ x : string, Hana.dynamic_ hn !! x
                = Hana.address_of Events <$> Hana.check_key Events x) as Hbrs.
    { intros event ->. apply (Hbr event), elem_of_cons. by left. }
    pose proof (sim_step s bs rt hn w Hs Hbrs Hrel) as Hstep.
    destruct (Runtime.step call (Hana.to_runtime s) (rt, w)) as [[rt1 w1]|m1 w1],
             (Hana.step call Events bs (hn, w)) as [[hn1 w2]|m2 w2];
      cbn [bind_outcome]; try done.
    destruct Hstep as (<- & Hdyn & Hrel1).
    assert (∀ event, Hana.TriggerStr event ∈ p →
              ∀ x : string, Hana.dynamic_ hn1 !! x
                = Hana.address_of Events <$> Hana.check_key Events x) as Hbr1.
    { intros event Hin x. rewrite Hdyn. apply (Hbr event), elem_of_cons.
      by right. }
    pose proof (IH rt1 hn1 w1 Hbr1 Hrel1) as Hrun.
    destruct (Runtime.run call (Hana.to_runtime <$> p) (rt1, w1))
               as [[rt2 w3]|m3 w3],
             (Hana.run call Events b (hn1, w1)) as [[hn2 w4]|m4 w4]; try done.
    destruct Hrun as (-> & Hdyn2 & Hrel2). split; [done|]. split; [|done].
    by rewrite Hdyn2.
Qed.

End simulation.

(** ** The two [main] functions, run *)

Example runtime_main_runs :
  Runtime.run record runtime_main
    (Runtime.make_event_system main_events, [])
  = Aborted "trying to trigger an unknown event"
      ["foo triggered!"; "foo again!"; "baz triggered!"].
Proof. vm_compute. reflexivity. Qed.


Example hana_main_runs :
  ∃ h, Hana.run record main_events hana_main_built
         (Hana.make_event_system main_events, [])
       = Done (h, ["foo triggered!"; "foo again!"; "bar triggered!";
                   "baz triggered!"]).
Proof. eexists. vm_compute. reflexivity. Qed.

(** ** The claims *)

(** C9.  The constructor of runtime.cpp on a list with repetitions: the
    keys of the map are exactly the names of the list, every one of them
    maps to the empty vector, a name that occurred earlier in the list
    changes nothing when it is inserted again (so the list without that
    later occurrence builds the same object), and in general
    [unordered_map::insert] on a key that is present returns the map as it
    was, whatever the value offered. *)
Theorem runtime_ctor_first_occurrence_wins {Callback : Type}
    (events : list string) :
  dom (Runtime.map_ (Runtime.make_event_system (Callback:=Callback) events))
    = list_to_set events
  ∧ (∀ e, e ∈ events →
       Runtime.map_ (Runtime.make_event_system (Callback:=Callback) events) !! e
       = Some [])
  ∧ (∀ pre post x, events = pre ++ x :: post → x ∈ pre →
       Runtime.make_event_system (Callback:=Callback) events
       = Runtime.make_event_system (pre ++ post))
  ∧ (∀ (m : gmap string (list Callback)) k v v',
       m !! k = Some v → umap_insert k v' m = m).
Proof.
  split; [apply runtime_ctor_dom|]. split; [|split].
  - intros e He. by rewrite runtime_ctor_lookup, decide_True.
  - intros pre post x -> Hx. unfold Runtime.make_event_system. f_equal.
    rewrite !foldl_app. cbn [foldl]. f_equal.
    apply umap_insert_present with [].
    by rewrite runtime_ctor_fold, lookup_empty, decide_True.
  - intros m k v v'. apply umap_insert_present.
Qed.

Lemma runtime_ctor_first_occurrence_wins_witness :
  Runtime.make_event_system (Callback:=string) ["foo"; "bar"; "foo"; "baz"]
  = Runtime.make_event_system ["foo"; "bar"; "baz"].
Proof.
  destruct (runtime_ctor_first_occurrence_wins (Callback:=string)
              ["foo"; "bar"; "foo"; "baz"]) as (_ & _ & Hdup & _).
  apply (Hdup ["foo"; "bar"] ["baz"] "foo"); [reflexivity|].
  apply elem_of_cons. left. reflexivity.
Defined.

(** C5.  The keys are fixed when the object is constructed.  Whatever a
    client of runtime.cpp calls, if it returns then the map has the keys
    it had, and the vector of every key is the one it was followed by the
    callbacks the client registered for that key.  Whatever a built client
    of hana.cpp calls, the index from texts to vectors is the one it was
    (the keys of [map_] are in its type), and again the vector of every key
    is the one it was followed by the callbacks registered for that key. *)
Theorem key_set_fixed_at_construction {World Callback : Type}
    (call : Callback → World → World) (Events : list string)
    (p : list (Runtime.stmt Callback)) (r0 r : Runtime.event_system Callback)
    (b : list (Hana.built_stmt Callback Events))
    (h0 h : Hana.event_system Callback Events) (w0 w u0 u : World) :
  Runtime.run call p (r0, w0) = Done (r, w) →
  Hana.run call Events b (h0, u0) = Done (h, u) →
  dom (Runtime.map_ r) = dom (Runtime.map_ r0)
  ∧ (∀ e, Runtime.map_ r !! e
          = (λ l, l ++ Runtime.registered e p) <$> Runtime.map_ r0 !! e)
  ∧ Hana.dynamic_ h = Hana.dynamic_ h0
  ∧ (∀ k, Hana.map_ h !!! Hana.address_of Events k
          = Hana.map_ h0 !!! Hana.address_of Events k
            ++ Hana.registered Events (Hana.c_str k) b).
Proof.
  intros Hr Hh. split; [by eapply runtime_run_dom|]. split; [|split].
  - intros e. by eapply runtime_run_lookup.
  - by eapply hana_run_dynamic.
  - intros k. by eapply hana_run_lookup.
Qed.

Lemma key_set_fixed_at_construction_witness :
  ∃ r w h u,
    (Runtime.run record (take 6 runtime_main)
       (Runtime.make_event_system main_events, []) = Done (r, w)
     ∧ Hana.run record main_events hana_main_built
         (Hana.make_event_system main_events, []) = Done (h, u))
    ∧ dom (Runtime.map_ r)
      = dom (Runtime.map_ (Runtime.make_event_system (Callback:=string)
                             main_events))
    ∧ Hana.dynamic_ h
      = Hana.dynamic_ (Hana.make_event_system (Callback:=string) main_events).
Proof.
  assert (∃ r w, Runtime.run record (take 6 runtime_main)
                   (Runtime.make_event_system main_events, []) = Done (r, w))
    as (r & w & Hr) by (eexists _, _; vm_compute; reflexivity).
  assert (∃ h u, Hana.run record main_events hana_main_built
                   (Hana.make_event_system main_events, []) = Done (h, u))
    as (h & u & Hh) by (eexists _, _; vm_compute; reflexivity).
  exists r, w, h, u. split; [by split|].
  destruct (key_set_fixed_at_construction record main_events _ _ _ _ _ _
              _ _ _ _ Hr Hh) as (Hdom & _ & Hdyn & _).
  split; [exact Hdom|exact Hdyn].
Defined.

(** C10.  Triggering an event that the object knows returns the object as
    it was: the same keys and the same vectors, the one of the triggered
    event included.  (A callback is a function of the world, of which the
    object is not a part.) *)
Theorem trigger_leaves_registry_unchanged {World Callback : Type}
    (call : Callback → World → World) (Events : list string)
    (r : Runtime.event_system Callback) (h : Hana.event_system Callback Events)
    (e : string) (k : Hana.key Events) (w : World) :
  e ∈ dom (Runtime.map_ r) →
  Hana.c_str k ∈ dom (Hana.dynamic_ h) →
  (∃ w', Runtime.trigger call e (r, w) = Done (r, w'))
  ∧ (∃ w', Hana.trigger call Events k (h, w) = (h, w'))
  ∧ (∃ w', Hana.trigger_str call Events (Hana.c_str k) (h, w) = Done (h, w')).
Proof.
  intros [l Hl]%elem_of_dom [a Ha]%elem_of_dom. split; [|split].
  - simpl. rewrite Hl. by eexists.
  - simpl. by eexists.
  - simpl. rewrite Ha. by eexists.
Qed.

Lemma trigger_leaves_registry_unchanged_witness :
  ("foo" ∈ dom (Runtime.map_ runtime_main_object)
   ∧ Hana.c_str foo_s ∈ dom (Hana.dynamic_ hana_main_object))
  ∧ Runtime.trigger record "foo" (runtime_main_object, [])
    = Done (runtime_main_object, ["foo triggered!"; "foo again!"])
  ∧ Hana.trigger record main_events foo_s (hana_main_object, [])
    = (hana_main_object, ["foo triggered!"; "foo again!"])
  ∧ Hana.trigger_str record main_events "foo" (hana_main_object, [])
    = Done (hana_main_object, ["foo triggered!"; "foo again!"]).
Proof.
  assert ("foo" ∈ dom (Runtime.map_ runtime_main_object)) as H1.
  { apply elem_of_dom. eexists. vm_compute. reflexivity. }
  assert (Hana.c_str foo_s ∈ dom (Hana.dynamic_ hana_main_object)) as H2.
  { apply elem_of_dom. eexists. vm_compute. reflexivity. }
  split; [by split|].
  destruct (trigger_leaves_registry_unchanged record main_events
              runtime_main_object hana_main_object "foo" foo_s [] H1 H2)
    as ((w1 & Hr) & (w2 & Hh) & (w3 & Hs)).
  assert (w1 = ["foo triggered!"; "foo again!"]) as Hw1
    by (vm_compute in Hr; by injection Hr).
  assert (w2 = ["foo triggered!"; "foo again!"]) as Hw2
    by (vm_compute in Hh; by injection Hh).
  assert (w3 = ["foo triggered!"; "foo again!"]) as Hw3
    by (vm_compute in Hs; by injection Hs).
  split; [by rewrite Hr, Hw1|]. split; [by rewrite Hh, Hw2|].
  change "foo" with (Hana.c_str foo_s). by rewrite Hs, Hw3.
Defined.

(** What the object holds for a known event after a client has returned
    from a freshly constructed object: the callbacks registered for it, in
    both files; and in hana.cpp, when no event holds a NUL, the index
    points at that very vector. *)
Lemma contents_after_run {World Callback : Type}
    (call : Callback → World → World) (Events : list string) (e : string)
    (p : list (Runtime.stmt Callback)) (r : Runtime.event_system Callback)
    (b : list (Hana.built_stmt Callback Events))
    (h : Hana.event_system Callback Events) (w0 w u0 u : World) :
  e ∈ Events →
  Runtime.run call p (Runtime.make_event_system Events, w0) = Done (r, w) →
  Hana.run call Events b (Hana.make_event_system Events, u0) = Done (h, u) →
  Runtime.map_ r !! e = Some (Runtime.registered e p)
  ∧ (∀ k, Hana.c_str k = e →
       Hana.map_ h !!! Hana.address_of Events k = Hana.registered Events e b
       ∧ (Forall nul_free Events →
          Hana.dynamic_ h !! e = Some (Hana.address_of Events k)))
  ∧ ∃ k : Hana.key Events, Hana.c_str k = e.
Proof.
  intros He Hr Hh. split; [|split].
  - rewrite (runtime_run_lookup _ _ _ _ _ _ e Hr), runtime_ctor_lookup.
    by rewrite decide_True.
  - intros k <-. split.
    + by rewrite (hana_run_lookup _ _ _ _ _ _ _ k Hh), hana_ctor_map.
    + intros Hfree.
      by rewrite (hana_run_bridge _ _ _ _ _ _ _ Hfree Hh), check_key_c_str.
  - destruct (check_key_known Events e He) as (k & _ & Hke). by exists k.
Qed.

(** C1.  Take an object built from a list of distinct events and any
    client that has returned, and let [c1, ..., cn] be the callbacks the
    client registered for an event [e] of the list, in the order of its
    calls of [on].  Then [trigger(e)] returns, and on its return the world
    is the one in which [c1], then [c2], ..., then [cn] have been called
    and nothing else; in the world that records calls, exactly
    [c1, ..., cn] has been added to the record.  This holds for
    [trigger] of runtime.cpp and for the member template [trigger] of
    hana.cpp, for every list of events.  It holds as well for the overload
    of hana.cpp on [std::string], given the text of the event, when no
    event of the list holds a NUL. *)
Theorem trigger_invokes_in_registration_order {World Callback : Type}
    (call : Callback → World → World) (Events : list string) (e : string)
    (p : list (Runtime.stmt Callback)) (r : Runtime.event_system Callback)
    (b : list (Hana.built_stmt Callback Events))
    (h : Hana.event_system Callback Events) (w0 w u0 u : World) :
  NoDup Events →
  e ∈ Events →
  Runtime.run call p (Runtime.make_event_system Events, w0) = Done (r, w) →
  Hana.run call Events b (Hana.make_event_system Events, u0) = Done (h, u) →
  (Runtime.trigger call e (r, w)
     = Done (r, foldl (λ w c, call c w) w (Runtime.registered e p))
   ∧ ∀ log, Runtime.trigger record e (r, log)
            = Done (r, log ++ Runtime.registered e p))
  ∧ (∀ k, Hana.c_str k = e →
       Hana.trigger call Events k (h, u)
         = (h, foldl (λ w c, call c w) u (Hana.registered Events e b))
       ∧ ∀ log, Hana.trigger record Events k (h, log)
                = (h, log ++ Hana.registered Events e b))
  ∧ (Forall nul_free Events →
     Hana.trigger_str call Events e (h, u)
       = Done (h, foldl (λ w c, call c w) u (Hana.registered Events e b))
     ∧ ∀ log, Hana.trigger_str record Events e (h, log)
              = Done (h, log ++ Hana.registered Events e b)).
Proof.
  intros _ He Hr Hh.
  destruct (contents_after_run call Events e p r b h w0 w u0 u He Hr Hh)
    as (Hl & Hv & k & Hke).
  split; [|split].
  - simpl. rewrite Hl. split.
    + by rewrite invoke_each_foldl.
    + intros log. by rewrite invoke_each_record.
  - intros k' Hk'. simpl. rewrite (proj1 (Hv k' Hk')). split.
    + by rewrite invoke_each_foldl.
    + intros log. by rewrite invoke_each_record.
  - intros Hfree. simpl. destruct (Hv k Hke) as [Hm Hd].
    rewrite (Hd Hfree), Hm. split.
    + by rewrite invoke_each_foldl.
    + intros log. by rewrite invoke_each_record.
Qed.

Lemma trigger_invokes_in_registration_order_witness :
  ∃ r w h u,
    (NoDup main_events
     ∧ "foo" ∈ main_events
     ∧ Runtime.run record (take 6 runtime_main)
         (Runtime.make_event_system main_events, []) = Done (r, w)
     ∧ Hana.run record main_events hana_main_built
         (Hana.make_event_system main_events, []) = Done (h, u))
    ∧ Runtime.trigger record "foo" (r, [])
      = Done (r, ["foo triggered!"; "foo again!"])
    ∧ Hana.trigger record main_events foo_s (h, [])
      = (h, ["foo triggered!"; "foo again!"])
    ∧ Hana.trigger_str record main_events "foo" (h, [])
      = Done (h, ["foo triggered!"; "foo again!"]).
Proof.
  assert (NoDup main_events) as Hnd
    by (refine (bool_decide_unpack _ _); vm_compute; exact I).
  assert ("foo" ∈ main_events) as Hin
    by (refine (bool_decide_unpack _ _); vm_compute; exact I).
  assert (∃ r w, Runtime.run record (take 6 runtime_main)
                   (Runtime.make_event_system main_events, []) = Done (r, w))
    as (r & w & Hr) by (eexists _, _; vm_compute; reflexivity).
  assert (∃ h u, Hana.run record main_events hana_main_built
                   (Hana.make_event_system main_events, []) = Done (h, u))
    as (h & u & Hh) by (eexists _, _; vm_compute; reflexivity).
  exists r, w, h, u. split; [done|].
  assert (Forall nul_free main_events) as Hfree
    by (repeat constructor).
  destruct (trigger_invokes_in_registration_order record main_events "foo"
              _ _ _ _ _ _ _ _ Hnd Hin Hr Hh) as ((_ & H1) & H2 & H3).
  split; [exact (H1 [])|]. split; [|exact (proj2 (H3 Hfree) [])].
  exact (proj2 (H2 foo_s eq_refl) []).
Defined.

(** C7.  Take an object built from a list of distinct events, one event
    [e] of the list (so the list is not empty), and a client that has
    returned without registering anything for [e]: the vector of [e] is
    empty.  Then [trigger(e)] returns, and the object and the world are
    what they were.  This holds for [trigger] of runtime.cpp and for the
    member template [trigger] of hana.cpp, for every list of events; the
    client that does nothing gives the freshly constructed object.  It
    holds as well for the overload of hana.cpp on [std::string] when no
    event of the list holds a NUL. *)
Theorem trigger_without_callbacks_is_noop {World Callback : Type}
    (call : Callback → World → World) (Events : list string) (e : string)
    (p : list (Runtime.stmt Callback)) (r : Runtime.event_system Callback)
    (b : list (Hana.built_stmt Callback Events))
    (h : Hana.event_system Callback Events) (w0 w u0 u : World) :
  NoDup Events →
  e ∈ Events →
  Runtime.run call p (Runtime.make_event_system Events, w0) = Done (r, w) →
  Runtime.registered e p = [] →
  Hana.run call Events b (Hana.make_event_system Events, u0) = Done (h, u) →
  Hana.registered Events e b = [] →
  Runtime.trigger call e (r, w) = Done (r, w)
  ∧ (∀ k, Hana.c_str k = e → Hana.trigger call Events k (h, u) = (h, u))
  ∧ (Forall nul_free Events →
     Hana.trigger_str call Events e (h, u) = Done (h, u)).
Proof.
  intros _ He Hr Hrn Hh Hhn.
  destruct (contents_after_run call Events e p r b h w0 w u0 u He Hr Hh)
    as (Hl & Hv & k & Hke).
  rewrite Hrn in Hl. rewrite Hhn in Hv. split; [|split].
  - simpl. by rewrite Hl.
  - intros k' Hk'. simpl. by rewrite (proj1 (Hv k' Hk')).
  - intros Hfree. simpl. destruct (Hv k Hke) as [Hm Hd].
    by rewrite (Hd Hfree), Hm.
Qed.

Lemma trigger_without_callbacks_is_noop_witness :
  ∃ r w h u,
    (NoDup main_events
     ∧ "bar" ∈ main_events
     ∧ Runtime.run record (take 2 runtime_main)
         (Runtime.make_event_system main_events, []) = Done (r, w)
     ∧ Runtime.registered "bar" (take 2 runtime_main) = []
     ∧ Hana.run record main_events (take 2 hana_main_built)
         (Hana.make_event_system main_events, []) = Done (h, u)
     ∧ Hana.registered main_events "bar" (take 2 hana_main_built) = [])
    ∧ Runtime.trigger record "bar" (r, w) = Done (r, w)
    ∧ Hana.trigger record main_events bar_s (h, u) = (h, u)
    ∧ Hana.trigger_str record main_events "bar" (h, u) = Done (h, u).
Proof.
  assert (NoDup main_events) as Hnd
    by (refine (bool_decide_unpack _ _); vm_compute; exact I).
  assert ("bar" ∈ main_events) as Hin
    by (refine (bool_decide_unpack _ _); vm_compute; exact I).
  assert (∃ r w, Runtime.run record (take 2 runtime_main)
                   (Runtime.make_event_system main_events, []) = Done (r, w))
    as (r & w & Hr) by (eexists _, _; vm_compute; reflexivity).
  assert (∃ h u, Hana.run record main_events (take 2 hana_main_built)
                   (Hana.make_event_system main_events, []) = Done (h, u))
    as (h & u & Hh) by (eexists _, _; vm_compute; reflexivity).
  assert (Runtime.registered "bar" (take 2 runtime_main) = []) as Hrn
    by (vm_compute; reflexivity).
  assert (Hana.registered main_events "bar" (take 2 hana_main_built) = [])
    as Hhn by (vm_compute; reflexivity).
  exists r, w, h, u. split; [done|].
  destruct (trigger_without_callbacks_is_noop record main_events "bar"
              _ _ _ _ _ _ _ _ Hnd Hin Hr Hrn Hh Hhn) as (H1 & H2 & H3).
  split; [exact H1|]. split; [exact (H2 bar_s eq_refl)|].
  apply H3. repeat constructor.
Defined.

(** C8.  Let [l] be the vector an object holds for an event it knows.
    Triggering the event twice calls the callbacks of [l] in order and
    then the callbacks of [l] in order again, and leaves the object as it
    was.  When [on] registers [c] for the event between the two triggers,
    the first trigger has called the callbacks of [l] only (the world after
    the [on] is the world after the first trigger), and the second calls
    the callbacks of [l] and then [c].  This holds for runtime.cpp and for
    both ways of triggering in hana.cpp. *)
Theorem trigger_twice_and_late_registration {World Callback : Type}
    (call : Callback → World → World) (Events : list string)
    (r : Runtime.event_system Callback) (h : Hana.event_system Callback Events)
    (e : string) (k : Hana.key Events) (l : list Callback) (c : Callback)
    (w : World) :
  Runtime.map_ r !! e = Some l →
  Hana.map_ h !!! Hana.address_of Events k = l →
  Hana.dynamic_ h !! Hana.c_str k = Some (Hana.address_of Events k) →
  (Runtime.run call [Runtime.Trigger e; Runtime.Trigger e] (r, w)
     = Done (r, foldl (λ w c, call c w) w (l ++ l))
   ∧ ∃ r',
       Runtime.run call [Runtime.Trigger e; Runtime.On e c] (r, w)
         = Done (r', foldl (λ w c, call c w) w l)
       ∧ Runtime.run call [Runtime.Trigger e; Runtime.On e c; Runtime.Trigger e]
           (r, w)
         = Done (r', foldl (λ w c, call c w) w (l ++ (l ++ [c]))))
  ∧ (Hana.run call Events [Hana.BTrigger Events k; Hana.BTrigger Events k]
       (h, w)
     = Done (h, foldl (λ w c, call c w) w (l ++ l))
   ∧ Hana.run call Events
       [Hana.BTriggerStr Events (Hana.c_str k);
        Hana.BTriggerStr Events (Hana.c_str k)] (h, w)
     = Done (h, foldl (λ w c, call c w) w (l ++ l))
   ∧ ∃ h',
       Hana.run call Events [Hana.BTrigger Events k; Hana.BOn Events k c] (h, w)
         = Done (h', foldl (λ w c, call c w) w l)
       ∧ Hana.run call Events
           [Hana.BTrigger Events k; Hana.BOn Events k c; Hana.BTrigger Events k]
           (h, w)
         = Done (h', foldl (λ w c, call c w) w (l ++ (l ++ [c])))
       ∧ Hana.run call Events
           [Hana.BTriggerStr Events (Hana.c_str k); Hana.BOn Events k c;
            Hana.BTriggerStr Events (Hana.c_str k)] (h, w)
         = Done (h', foldl (λ w c, call c w) w (l ++ (l ++ [c])))).
Proof.
  intros Hl Hv Hd. rewrite !foldl_app, <- !invoke_each_foldl. split.
  - split.
    + simpl. rewrite Hl. simpl. by rewrite Hl.
    + eexists. split.
      * simpl. rewrite Hl. simpl. rewrite Hl. reflexivity.
      * simpl. rewrite Hl. simpl. rewrite Hl. simpl.
        rewrite lookup_insert_eq. simpl. by rewrite invoke_each_app.
  - split; [|split].
    + simpl. by rewrite Hv.
    + simpl. rewrite Hd. simpl. by rewrite Hd, Hv.
    + eexists. split; [|split].
      * simpl. rewrite Hv. reflexivity.
      * simpl. rewrite vlookup_insert, Hv. by rewrite invoke_each_app.
      * simpl. rewrite Hd. simpl. rewrite Hd, vlookup_insert, Hv.
        by rewrite invoke_each_app.
Qed.

Lemma trigger_twice_and_late_registration_witness :
  ∃ r w h u,
    (Runtime.run record (take 4 runtime_main)
       (Runtime.make_event_system main_events, []) = Done (r, w)
     ∧ Hana.run record main_events (take 4 hana_main_built)
         (Hana.make_event_system main_events, []) = Done (h, u)
     ∧ Runtime.map_ r !! "foo" = Some ["foo triggered!"; "foo again!"]
     ∧ Hana.map_ h !!! Hana.address_of main_events foo_s
       = ["foo triggered!"; "foo again!"]
     ∧ Hana.dynamic_ h !! Hana.c_str foo_s
       = Some (Hana.address_of main_events foo_s))
    ∧ Runtime.run record [Runtime.Trigger "foo"; Runtime.Trigger "foo"] (r, [])
      = Done (r, ["foo triggered!"; "foo again!";
                  "foo triggered!"; "foo again!"])
    ∧ (∃ r', Runtime.run record
               [Runtime.Trigger "foo"; Runtime.On "foo" "late";
                Runtime.Trigger "foo"] (r, [])
             = Done (r', ["foo triggered!"; "foo again!";
                          "foo triggered!"; "foo again!"; "late"]))
    ∧ (∃ h', Hana.run record main_events
               [Hana.BTriggerStr main_events "foo";
                Hana.BOn main_events foo_s "late";
                Hana.BTriggerStr main_events "foo"] (h, [])
             = Done (h', ["foo triggered!"; "foo again!";
                          "foo triggered!"; "foo again!"; "late"])).
Proof.
  assert (∃ r w, Runtime.run record (take 4 runtime_main)
                   (Runtime.make_event_system main_events, []) = Done (r, w)
                 ∧ Runtime.map_ r !! "foo"
                   = Some ["foo triggered!"; "foo again!"])
    as (r & w & Hr & Hl) by (eexists _, _; split; vm_compute; reflexivity).
  assert (∃ h u, Hana.run record main_events (take 4 hana_main_built)
                   (Hana.make_event_system main_events, []) = Done (h, u)
                 ∧ Hana.map_ h !!! Hana.address_of main_events foo_s
                   = ["foo triggered!"; "foo again!"]
                 ∧ Hana.dynamic_ h !! Hana.c_str foo_s
                   = Some (Hana.address_of main_events foo_s))
    as (h & u & Hh & Hv & Hd)
    by (eexists _, _; repeat split; vm_compute; reflexivity).
  exists r, w, h, u. split; [done|].
  destruct (trigger_twice_and_late_registration record main_events r h
              "foo" foo_s _ "late" [] Hl Hv Hd)
    as ((H1 & r' & _ & H2) & (_ & _ & h' & _ & _ & H3)).
  split; [exact H1|]. split; [by exists r'|by exists h'].
Defined.

(** What does hold about names the object does not know.  In runtime.cpp,
    [trigger] and [on] with a name that is not an event fail their
    assertion, with its message.  In hana.cpp,
    [trigger(std::string const&)] fails its assertion exactly on the texts
    that are not an event read as a C string.  In each case the run ends
    in the world as it was when the call was made. *)
Lemma unknown_text_aborts_without_invoking {World Callback : Type}
    (call : Callback → World → World) (Events : list string) (x : string)
    (p : list (Runtime.stmt Callback)) (r : Runtime.event_system Callback)
    (b : list (Hana.built_stmt Callback Events))
    (h : Hana.event_system Callback Events) (w0 w u0 u : World) :
  Runtime.run call p (Runtime.make_event_system Events, w0) = Done (r, w) →
  Hana.run call Events b (Hana.make_event_system Events, u0) = Done (h, u) →
  (x ∉ Events →
     Runtime.trigger call x (r, w)
       = Aborted "trying to trigger an unknown event" w
     ∧ ∀ c, Runtime.on x c (r, w)
            = Aborted "trying to add a callback to an unknown event" w)
  ∧ (x ∉ to_std_string <$> Events ↔
     Hana.trigger_str call Events x (h, u)
       = Aborted "trying to trigger an unknown event" u).
Proof.
  intros Hr Hh. split.
  - intros Hx.
    assert (Runtime.map_ r !! x = None) as Hl.
    { rewrite (runtime_run_lookup _ _ _ _ _ _ x Hr), runtime_ctor_lookup.
      by rewrite decide_False. }
    simpl. by rewrite Hl.
  - assert (x ∈ to_std_string <$> Events ↔ is_Some (Hana.dynamic_ h !! x))
      as Hiff.
    { rewrite <- elem_of_dom, (hana_run_dynamic _ _ _ _ _ _ _ Hh).
      rewrite (hana_ctor_dom_texts (Callback:=Callback) Events).
      by rewrite elem_of_list_to_set. }
    simpl. destruct (Hana.dynamic_ h !! x) as [a|].
    + split; [|done]. intros Hout. destruct Hout. apply Hiff. by eexists.
    + split; [done|]. intros _ Hin. apply Hiff in Hin as [? ?]. done.
Qed.

(** C2.  The claim does not hold of [trigger(std::string const&)] in
    hana.cpp: the constructor keys the index by [event.c_str()] read as a
    C string, so a name that is the beginning of an event up to a NUL is
    found.  With the events ["a\0b"] and ["a\0c"] and a callback
    registered for ["a\0b"], the name ["a"] is not an event, and
    [trigger] with the [std::string] ["a"] returns after calling that
    callback; runtime.cpp, built from the same events, fails its assertion
    on ["a"] without calling anything. *)
Theorem string_trigger_runs_callbacks_of_truncated_name :
  ("a" ∉ nul_events)
  ∧ (∃ h, Hana.run record nul_events
            [Hana.BOn nul_events a_nul_b_s "cb";
             Hana.BTriggerStr nul_events "a"]
            (Hana.make_event_system nul_events, [])
          = Done (h, ["cb"]))
  ∧ Runtime.run record [Runtime.On a_nul_b "cb"; Runtime.Trigger "a"]
      (Runtime.make_event_system nul_events, [])
    = Aborted "trying to trigger an unknown event" [].
Proof.
  split; [|split].
  - refine (bool_decide_unpack _ _). vm_compute. exact I.
  - eexists. vm_compute. reflexivity.
  - vm_compute. reflexivity.
Qed.

(** What does hold about the index.  When no event holds a NUL, after any
    built client has worked on a freshly constructed object the index
    sends the text of every key to the address of the vector that [map_]
    holds for that key, and [trigger(std::string const&)] on the text of a
    key returns exactly what the member template returns on the key. *)
Lemma string_trigger_shares_storage_of_nul_free_keys {World Callback : Type}
    (call : Callback → World → World) (Events : list string)
    (b : list (Hana.built_stmt Callback Events))
    (h : Hana.event_system Callback Events) (u0 u : World) :
  Forall nul_free Events →
  Hana.run call Events b (Hana.make_event_system Events, u0) = Done (h, u) →
  ∀ k : Hana.key Events,
    Hana.dynamic_ h !! Hana.c_str k = Some (Hana.address_of Events k)
    ∧ (∀ w, Hana.trigger_str call Events (Hana.c_str k) (h, w)
            = Done (Hana.trigger call Events k (h, w)))
    ∧ (∀ c w, Hana.trigger_str call Events (Hana.c_str k)
                (Hana.on Events k c (h, w))
              = Done (Hana.trigger call Events k (Hana.on Events k c (h, w)))).
Proof.
  intros Hfree Hh k.
  assert (Hana.dynamic_ h !! Hana.c_str k = Some (Hana.address_of Events k))
    as Hd by by rewrite (hana_run_bridge _ _ _ _ _ _ _ Hfree Hh), check_key_c_str.
  split; [done|]. split.
  - intros w. simpl. by rewrite Hd.
  - intros c w. simpl. by rewrite Hd.
Qed.

(** C4.  The claim does not hold of hana.cpp for events that hold a NUL:
    the constructor keys the index by [event.c_str()] read as a C string,
    which stops at the NUL.  With the events ["a\0b"] and ["a\0c"] and
    a callback registered for ["a\0c"], the member template on
    ["a\0c"_s] calls the callback; [trigger] with the [std::string] that
    holds the three characters of the key fails its assertion; and
    [trigger] with ["a"], which is what both keys read as, returns without
    calling it, because the one entry of the index, for ["a"], points at
    the vector of ["a\0b"]. *)
Theorem string_index_conflates_names_with_nul :
  ∃ h,
    Hana.run record nul_events [Hana.BOn nul_events a_nul_c_s "cb"]
      (Hana.make_event_system nul_events, []) = Done (h, [])
    ∧ Hana.trigger record nul_events a_nul_c_s (h, []) = (h, ["cb"])
    ∧ Hana.trigger_str record nul_events (Hana.c_str a_nul_c_s) (h, [])
      = Aborted "trying to trigger an unknown event" []
    ∧ to_std_string (Hana.c_str a_nul_c_s) = "a"
    ∧ Hana.trigger_str record nul_events "a" (h, []) = Done (h, [])
    ∧ dom (Hana.dynamic_ h) = {["a"]}
    ∧ Hana.dynamic_ h !! "a" = Some (Hana.address_of nul_events a_nul_b_s).
Proof.
  eexists. split; [vm_compute; reflexivity|].
  repeat split; vm_compute; reflexivity.
Qed.

(** C3.  In hana.cpp a client is built before it runs, and building
    evaluates the [static_assert] of every [on] and every [trigger] on a
    compile-time string.  A client that hands one of them an identifier
    outside [Events] does not build; a client whose identifiers are all in
    [Events] does.  A client that has been built never fails in [on] or in
    [trigger] on a compile-time string, from any object: when its run ends
    in a failed assertion, the client calls [trigger(std::string const&)],
    and a client that does not call it returns. *)
Theorem static_path_rejects_unknown_at_build {World Callback : Type}
    (call : Callback → World → World) (Events : list string)
    (p : list (Hana.stmt Callback)) :
  (∀ s e, s ∈ p → e ∈ Hana.static_idents s → e ∉ Events →
     Hana.build Events p = None)
  ∧ (Forall (λ s, Forall (λ e, e ∈ Events) (Hana.static_idents s)) p →
     is_Some (Hana.build Events p))
  ∧ (∀ b, Hana.build Events p = Some b →
     Forall (λ s, Forall (λ e, e ∈ Events) (Hana.static_idents s)) p
     ∧ ∀ (h : Hana.event_system Callback Events) (w : World),
         match Hana.run call Events b (h, w) with
         | Done _ => True
         | Aborted msg _ =>
             msg = "trying to trigger an unknown event"
             ∧ ∃ event, Hana.TriggerStr event ∈ p
                        ∧ Hana.dynamic_ h !! event = None
         end).
Proof.
  split; [|split].
  - intros s e. apply build_unknown.
  - apply build_is_Some.
  - intros b Hb. split; [apply build_is_Some; by eexists|].
    intros h w.
    destruct (Hana.run call Events b (h, w)) as [st|msg w'] eqn:Hrun; [done|].
    apply hana_run_Aborted in Hrun as (-> & event & Hin & Hev).
    split; [done|]. exists event. split; [|done].
    unfold Hana.build in Hb. apply mapM_Some in Hb.
    apply list_elem_of_lookup in Hin as [i Hi].
    destruct (Forall2_lookup_r _ _ _ _ _ Hb Hi) as (s & Hs & Hbs).
    apply build_stmt_TriggerStr in Hbs as ->.
    apply list_elem_of_lookup. by exists i.
Qed.

Lemma static_path_rejects_unknown_at_build_witness :
  Hana.build main_events
    (hana_main ++ [Hana.On "unknown" "never"; Hana.Trigger "foo"]) = None
  ∧ Hana.build main_events (hana_main ++ [Hana.Trigger "unknown"]) = None
  ∧ is_Some (Hana.build main_events hana_main).
Proof.
  assert ("unknown" ∉ main_events) as Hx
    by (refine (bool_decide_unpack _ _); vm_compute; exact I).
  split; [|split].
  - refine (proj1 (static_path_rejects_unknown_at_build record main_events _)
              (Hana.On "unknown" "never") "unknown" _ _ Hx).
    + apply elem_of_app. right. apply elem_of_cons. left. reflexivity.
    + apply elem_of_cons. left. reflexivity.
  - refine (proj1 (static_path_rejects_unknown_at_build record main_events _)
              (Hana.Trigger "unknown") "unknown" _ _ Hx).
    + apply elem_of_app. right. apply elem_of_cons. left. reflexivity.
    + apply elem_of_cons. left. reflexivity.
  - apply (proj1 (proj2 (static_path_rejects_unknown_at_build record
                           main_events hana_main))).
    repeat constructor; refine (bool_decide_unpack _ _); vm_compute; exact I.
Defined.

(** A client of hana.cpp that builds and the same client written against
    runtime.cpp end alike from freshly constructed objects: both return,
    in the same world, or both fail the same assertion, in the same
    world.  A client that calls [trigger(std::string const&)] needs the
    events to hold no NUL for this. *)
Lemma built_client_agrees_with_runtime {World Callback : Type}
    (call : Callback → World → World) (Events : list string)
    (p : list (Hana.stmt Callback))
    (b : list (Hana.built_stmt Callback Events)) (w : World) :
  (∀ event, Hana.TriggerStr event ∈ p → Forall nul_free Events) →
  Hana.build Events p = Some b →
  match Runtime.run call (Hana.to_runtime <$> p)
          (Runtime.make_event_system Events, w),
        Hana.run call Events b (Hana.make_event_system Events, w) with
  | Done (_, w1), Done (_, w2) => w1 = w2
  | Aborted m1 w1, Aborted m2 w2 => m1 = m2 ∧ w1 = w2
  | _, _ => False
  end.
Proof.
  intros Hfree Hb.
  assert (∀ event, Hana.TriggerStr event ∈ p →
            ∀ x : string,
              Hana.dynamic_ (Hana.make_event_system (Callback:=Callback) Events)
                !! x
              = Hana.address_of Events <$> Hana.check_key Events x) as Hbr.
  { intros event Hin x. apply hana_ctor_dynamic. by apply (Hfree event). }
  pose proof (sim_run call Events p b (Runtime.make_event_system Events)
                (Hana.make_event_system Events) w Hb Hbr (sim_ctor Events))
    as Hsim.
  destruct (Runtime.run _ _ _) as [[r w1]|m1 w1],
           (Hana.run _ _ _ _) as [[h w2]|m2 w2]; try done.
  by destruct Hsim as (-> & _).
Qed.



(** ** More about runtime.cpp: when a client returns, and what it runs *)

Section runtime_more_facts.
Context {World Callback : Type}.
Variable call : Callback → World → World.
Implicit Types (r : Runtime.event_system Callback) (w : World).
Implicit Types (p : list (Runtime.stmt Callback)).

Lemma runtime_step_unknown s r w :
  Runtime.event_of s ∉ dom (Runtime.map_ r) →
  Runtime.step call s (r, w)
  = Aborted (match s with
             | Runtime.On _ _ => "trying to add a callback to an unknown event"
             | Runtime.Trigger _ => "trying to trigger an unknown event"
             end) w.
Proof.
  intros Hout%not_elem_of_dom. destruct s as [event c|event]; simpl in *;
    by rewrite Hout.
Qed.

Lemma runtime_run_Done_known p r w r' w' :
  Runtime.run call p (r, w) = Done (r', w') →
  Forall (λ s, Runtime.event_of s ∈ dom (Runtime.map_ r)) p.
Proof.
  revert r w. induction p as [|s p IH]; intros r w; cbn [Runtime.run].
  - constructor.
  - intros ([r1 w1] & Hstep & Hrun)%bind_outcome_Done. constructor.
    + destruct (decide (Runtime.event_of s ∈ dom (Runtime.map_ r)))
        as [Hin|Hout]; [done|].
      by rewrite (runtime_step_unknown _ _ _ Hout) in Hstep.
    + assert (dom (Runtime.map_ r) = dom (Runtime.map_ r1)) as ->.
      { symmetry. apply (runtime_run_dom call [s] r w r1 w1).
        simpl. by rewrite Hstep. }
      by eapply IH.
Qed.

Lemma runtime_registered_app p q (e : string) :
  Runtime.registered e (p ++ q)
  = Runtime.registered e p ++ Runtime.registered e q.
Proof.
  induction p as [|s p IH]; [done|].
  rewrite <- app_comm_cons, runtime_registered_cons, IH, app_assoc.
  by rewrite <- runtime_registered_cons.
Qed.

(** From an object that holds, for every key, what [seen] registered, a
    client that names keys only returns in the world where the callbacks
    of [invoked seen p] have been called in order. *)
Lemma runtime_run_invoked p (seen : list (Runtime.stmt Callback)) r w :
  (∀ e, e ∈ dom (Runtime.map_ r) →
        Runtime.map_ r !! e = Some (Runtime.registered e seen)) →
  Forall (λ s, Runtime.event_of s ∈ dom (Runtime.map_ r)) p →
  ∃ r', Runtime.run call p (r, w)
        = Done (r', invoke_each call (invoked seen p) w).
Proof.
  revert seen r w. induction p as [|s p IH]; intros seen r w Hseen Hp.
  - by exists r.
  - inversion Hp as [|? ? Hs Hp']; subst. cbn [Runtime.run].
    destruct s as [event c|event]; simpl in Hs.
    + pose proof (Hseen event Hs) as Hl. cbn [Runtime.step Runtime.on invoked].
      rewrite Hl. cbn [bind_outcome].
      apply IH.
      * cbn [Runtime.map_]. intros e He. rewrite lookup_insert.
        rewrite runtime_registered_app. simpl.
        destruct (decide (event = e)) as [->|Hne]; [done|].
        rewrite app_nil_r. apply Hseen.
        rewrite dom_insert_L in He. apply elem_of_union in He as [He|He]; [|done].
        apply elem_of_singleton in He. by subst.
      * cbn [Runtime.map_]. rewrite dom_insert_L.
        eapply list.Forall_impl; [exact Hp'|]. intros s Hin.
        apply elem_of_union. by right.
    + pose proof (Hseen event Hs) as Hl.
      cbn [Runtime.step Runtime.trigger invoked]. rewrite Hl.
      cbn [bind_outcome]. rewrite invoke_each_app. by apply IH.
Qed.

End runtime_more_facts.

(** A client that names events of the list only returns from the object
    constructed from the list. *)
Lemma runtime_ctor_run_known {World Callback : Type}
    (call : Callback → World → World) (events : list string)
    (p : list (Runtime.stmt Callback)) (w : World) :
  Forall (λ s, Runtime.event_of s ∈ events) p →
  ∃ r w', Runtime.run call p (Runtime.make_event_system events, w)
          = Done (r, w').
Proof.
  intros Hp. apply runtime_run_known. rewrite runtime_ctor_dom.
  eapply list.Forall_impl; [exact Hp|]. intros s Hs.
  by apply elem_of_list_to_set.
Qed.

(** X1.  A client of runtime.cpp, run from a freshly constructed object,
    returns exactly when every call it makes, of [on] or of [trigger],
    names one of the events the object was constructed from. *)
Theorem runtime_client_returns_iff_events_known {World Callback : Type}
    (call : Callback → World → World) (events : list string)
    (p : list (Runtime.stmt Callback)) (w : World) :
  (∃ r w', Runtime.run call p (Runtime.make_event_system events, w)
           = Done (r, w'))
  ↔ Forall (λ s, Runtime.event_of s ∈ events) p.
Proof.
  split.
  - intros (r & w' & Hrun). apply runtime_run_Done_known in Hrun.
    rewrite runtime_ctor_dom in Hrun.
    eapply list.Forall_impl; [exact Hrun|]. intros s Hs.
    by apply elem_of_list_to_set in Hs.
  - apply runtime_ctor_run_known.
Qed.

Lemma runtime_client_returns_iff_events_known_witness :
  Forall (λ s, Runtime.event_of s ∈ main_events) (take 6 runtime_main)
  ∧ ∃ r w', Runtime.run record (take 6 runtime_main)
              (Runtime.make_event_system main_events, []) = Done (r, w').
Proof.
  assert (Forall (λ s, Runtime.event_of s ∈ main_events)
            (take 6 runtime_main)) as Hp
    by (repeat constructor; refine (bool_decide_unpack _ _); vm_compute;
        exact I).
  split; [exact Hp|].
  exact (proj2 (runtime_client_returns_iff_events_known record main_events
                  (take 6 runtime_main) []) Hp).
Defined.

(** X2.  When a client of runtime.cpp names an unknown event, its run ends
    at the first call that does: the calls before it are made, that call
    fails the assertion of the member function it is ([on] or [trigger],
    each with its own message), in the world the earlier calls have left,
    and whatever follows that call has no effect on how the run ends. *)
Theorem runtime_client_aborts_at_first_unknown {World Callback : Type}
    (call : Callback → World → World) (events : list string)
    (pre post : list (Runtime.stmt Callback)) (s : Runtime.stmt Callback)
    (w : World) :
  Forall (λ s, Runtime.event_of s ∈ events) pre →
  Runtime.event_of s ∉ events →
  ∃ r w',
    Runtime.run call pre (Runtime.make_event_system events, w) = Done (r, w')
    ∧ Runtime.run call (pre ++ s :: post)
        (Runtime.make_event_system events, w)
      = Aborted (match s with
                 | Runtime.On _ _ =>
                     "trying to add a callback to an unknown event"
                 | Runtime.Trigger _ => "trying to trigger an unknown event"
                 end) w'.
Proof.
  intros Hpre Hs.
  destruct (runtime_ctor_run_known call events pre w Hpre) as (r & w' & Hrun).
  exists r, w'. split; [done|].
  rewrite runtime_run_app, Hrun. cbn [bind_outcome Runtime.run].
  rewrite runtime_step_unknown; [done|].
  rewrite (runtime_run_dom _ _ _ _ _ _ Hrun), runtime_ctor_dom.
  by rewrite elem_of_list_to_set.
Qed.

Lemma runtime_client_aborts_at_first_unknown_witness :
  (Forall (λ s, Runtime.event_of s ∈ main_events) (take 6 runtime_main)
   ∧ Runtime.event_of (Callback:=string) (Runtime.Trigger "unknown")
       ∉ main_events)
  ∧ Runtime.run record (take 6 runtime_main ++ [Runtime.Trigger "unknown"])
      (Runtime.make_event_system main_events, [])
    = Aborted "trying to trigger an unknown event"
        ["foo triggered!"; "foo again!"; "baz triggered!"].
Proof.
  assert (Forall (λ s, Runtime.event_of s ∈ main_events)
            (take 6 runtime_main)) as Hpre
    by (repeat constructor; refine (bool_decide_unpack _ _); vm_compute;
        exact I).
  assert (Runtime.event_of (Callback:=string) (Runtime.Trigger "unknown")
            ∉ main_events) as Hs
    by (refine (bool_decide_unpack _ _); vm_compute; exact I).
  split; [by split|].
  destruct (runtime_client_aborts_at_first_unknown record main_events
              (take 6 runtime_main) [] (Runtime.Trigger "unknown") []
              Hpre Hs) as (r & w' & Hrun & Habort).
  rewrite Habort. vm_compute in Hrun. injection Hrun as _ <-. reflexivity.
Defined.

(** X3.  The constructor of runtime.cpp looks at which names its list
    holds and at nothing else: two lists build the same object exactly
    when they hold the same names, whatever their order and however often
    a name is repeated. *)
Theorem runtime_ctor_depends_on_names_only {Callback : Type}
    (events1 events2 : list string) :
  Runtime.make_event_system (Callback:=Callback) events1
  = Runtime.make_event_system events2
  ↔ ∀ e, e ∈ events1 ↔ e ∈ events2.
Proof.
  split.
  - intros Heq e.
    pose proof (runtime_ctor_lookup (Callback:=Callback) events1 e) as H1.
    pose proof (runtime_ctor_lookup (Callback:=Callback) events2 e) as H2.
    rewrite Heq, H2 in H1.
    destruct (decide (e ∈ events1)), (decide (e ∈ events2)); done.
  - intros Hsame.
    assert (Runtime.map_ (Runtime.make_event_system (Callback:=Callback) events1)
            = Runtime.map_ (Runtime.make_event_system events2)) as Hmap.
    { apply map_eq. intros e. rewrite !runtime_ctor_lookup.
      destruct (decide (e ∈ events1)) as [H1|H1],
               (decide (e ∈ events2)) as [H2|H2]; try done.
      - by apply Hsame in H1.
      - by apply Hsame in H2. }
    destruct (Runtime.make_event_system events1),
             (Runtime.make_event_system events2). simpl in Hmap. by subst.
Qed.

Lemma runtime_ctor_depends_on_names_only_witness :
  Runtime.make_event_system (Callback:=string) ["baz"; "foo"; "bar"; "foo"]
  = Runtime.make_event_system main_events.
Proof.
  apply (proj2 (runtime_ctor_depends_on_names_only
                  ["baz"; "foo"; "bar"; "foo"] main_events)).
  intros e. unfold main_events. rewrite !elem_of_cons, !elem_of_nil. tauto.
Defined.

(** X4.  What a client of runtime.cpp makes run is fixed by its text: a
    client that names known events only returns in the world where, for
    each of its calls of [trigger] in turn, the callbacks registered for
    the triggered event by the calls of [on] before it have been called in
    the order of those calls.  In the world that records calls, the record
    is [invoked [] p]. *)
Theorem runtime_client_runs_invoked {World Callback : Type}
    (call : Callback → World → World) (events : list string)
    (p : list (Runtime.stmt Callback)) (w : World) :
  Forall (λ s, Runtime.event_of s ∈ events) p →
  (∃ r, Runtime.run call p (Runtime.make_event_system events, w)
        = Done (r, foldl (λ w c, call c w) w (invoked [] p)))
  ∧ ∀ log, ∃ r, Runtime.run record p (Runtime.make_event_system events, log)
                = Done (r, log ++ invoked [] p).
Proof.
  intros Hp.
  assert (∀ (W : Type) (f : Callback → W → W) (x : W),
            ∃ r, Runtime.run f p (Runtime.make_event_system events, x)
                 = Done (r, invoke_each f (invoked [] p) x)) as Hgen.
  { intros W f x. apply runtime_run_invoked.
    - intros e He. rewrite runtime_ctor_dom in He.
      apply elem_of_list_to_set in He.
      by rewrite runtime_ctor_lookup, decide_True.
    - rewrite runtime_ctor_dom. eapply list.Forall_impl; [exact Hp|].
      intros s Hs. by apply elem_of_list_to_set. }
  split.
  - destruct (Hgen World call w) as [r Hr]. exists r.
    by rewrite <- invoke_each_foldl.
  - intros log. destruct (Hgen (list Callback) record log) as [r Hr].
    exists r. by rewrite <- invoke_each_record.
Qed.

Lemma runtime_client_runs_invoked_witness :
  Forall (λ s, Runtime.event_of s ∈ main_events)
    (take 6 runtime_main ++ [Runtime.Trigger "foo"])
  ∧ ∃ r, Runtime.run record (take 6 runtime_main ++ [Runtime.Trigger "foo"])
           (Runtime.make_event_system main_events, [])
         = Done (r, ["foo triggered!"; "foo again!"; "baz triggered!";
                     "foo triggered!"; "foo again!"]).
Proof.
  assert (Forall (λ s, Runtime.event_of s ∈ main_events)
            (take 6 runtime_main ++ [Runtime.Trigger "foo"])) as Hp
    by (repeat constructor; refine (bool_decide_unpack _ _); vm_compute;
        exact I).
  split; [exact Hp|].
  destruct (proj2 (runtime_client_runs_invoked record main_events _ [] Hp) [])
    as [r Hr].
  exists r. exact Hr.
Defined.

(** ** More about hana.cpp: the index, and when a built client returns *)

Section hana_more_facts.
Context {World Callback : Type}.
Variable call : Callback → World → World.
Variable Events : list string.
Implicit Types (h : Hana.event_system Callback Events) (w : World).
Implicit Types (b : list (Hana.built_stmt Callback Events)).

Lemma hana_vinsert_commute (v : vec (list Callback) (length Events))
    (i j : fin (length Events)) (x y : list Callback) :
  i ≠ j → vinsert i x (vinsert j y v) = vinsert j y (vinsert i x v).
Proof.
  intros Hij. apply vec_eq. intros n.
  destruct (decide (n = i)) as [->|Hni].
  - by rewrite vlookup_insert, vlookup_insert_ne, vlookup_insert.
  - rewrite (vlookup_insert_ne i n) by done.
    destruct (decide (n = j)) as [->|Hnj].
    + by rewrite !vlookup_insert.
    + by rewrite !(vlookup_insert_ne j n), (vlookup_insert_ne i n).
Qed.

Lemma hana_step_known bs h w :
  match bs with
  | Hana.BTriggerStr _ event => event ∈ dom (Hana.dynamic_ h)
  | _ => True
  end ↔ ∃ h' w', Hana.step call Events bs (h, w) = Done (h', w').
Proof.
  destruct bs as [e c|e|event]; simpl.
  - split; [by eexists _, _|done].
  - split; [by eexists _, _|done].
  - rewrite elem_of_dom. destruct (Hana.dynamic_ h !! event) as [a|].
    + split; [by eexists _, _|by eexists].
    + split; [by intros [? ?]|by intros (? & ? & ?)].
Qed.

Lemma hana_run_known b h w :
  Forall (λ bs, match bs with
                | Hana.BTriggerStr _ event => event ∈ dom (Hana.dynamic_ h)
                | _ => True
                end) b
  ↔ ∃ h' w', Hana.run call Events b (h, w) = Done (h', w').
Proof.
  revert h w. induction b as [|bs b IH]; intros h w.
  - split; [by eexists _, _|constructor].
  - rewrite list.Forall_cons. cbn [Hana.run]. split.
    + intros [Hbs Hb]. apply (hana_step_known bs h w) in Hbs
        as (h1 & w1 & Hstep). rewrite Hstep. cbn [bind_outcome].
      apply IH. by rewrite (hana_step_dynamic _ _ _ _ _ _ _ Hstep).
    + intros (h' & w' & ([h1 w1] & Hstep & Hrun)%bind_outcome_Done). split.
      * apply (hana_step_known bs h w). by eexists _, _.
      * rewrite <- (hana_step_dynamic _ _ _ _ _ _ _ Hstep).
        apply (IH h1 w1). by eexists _, _.
Qed.

End hana_more_facts.

(** X5.  Registrations for different events do not interfere.  In
    runtime.cpp two calls of [on] for different names end alike in either
    order, failed assertions included; a call of [on] for a name the
    object knows and a call of [trigger] for a different name end alike in
    either order.  In hana.cpp two calls of [on] for different keys, and a
    call of [on] and a call of [trigger] for different keys, give the same
    object and world in either order. *)
Theorem calls_on_different_events_commute {World Callback : Type}
    (call : Callback → World → World) (Events : list string)
    (r : Runtime.event_system Callback) (h : Hana.event_system Callback Events)
    (e1 e2 : string) (k1 k2 : Hana.key Events) (c1 c2 : Callback) (w : World) :
  e1 ≠ e2 →
  k1 ≠ k2 →
  Runtime.run call [Runtime.On e1 c1; Runtime.On e2 c2] (r, w)
    = Runtime.run call [Runtime.On e2 c2; Runtime.On e1 c1] (r, w)
  ∧ (e1 ∈ dom (Runtime.map_ r) →
     Runtime.run call [Runtime.On e1 c1; Runtime.Trigger e2] (r, w)
     = Runtime.run call [Runtime.Trigger e2; Runtime.On e1 c1] (r, w))
  ∧ Hana.on Events k1 c1 (Hana.on Events k2 c2 (h, w))
    = Hana.on Events k2 c2 (Hana.on Events k1 c1 (h, w))
  ∧ Hana.trigger call Events k2 (Hana.on Events k1 c1 (h, w))
    = Hana.on Events k1 c1 (Hana.trigger call Events k2 (h, w)).
Proof.
  intros He Hk.
  assert (Hana.address_of Events k1 ≠ Hana.address_of Events k2) as Ha
    by (by intros ?%address_of_inj).
  split; [|split; [|split]].
  - simpl. destruct (Runtime.map_ r !! e1) as [l1|] eqn:H1,
                    (Runtime.map_ r !! e2) as [l2|] eqn:H2; simpl;
      rewrite ?lookup_insert_ne, ?H1, ?H2 by done; try done.
    by rewrite insert_insert_ne.
  - intros [l1 H1]%elem_of_dom. simpl. rewrite H1. simpl.
    rewrite lookup_insert_ne by done.
    destruct (Runtime.map_ r !! e2) as [l2|]; simpl; by rewrite ?H1.
  - simpl. rewrite !vlookup_insert_ne by done. f_equal. f_equal.
    by apply hana_vinsert_commute.
  - simpl. by rewrite vlookup_insert_ne.
Qed.

Lemma calls_on_different_events_commute_witness :
  ("foo" ≠ "bar" ∧ foo_s ≠ bar_s)
  ∧ Runtime.run record [Runtime.On "foo" "a"; Runtime.On "bar" "b"]
      (Runtime.make_event_system main_events, [])
    = Runtime.run record [Runtime.On "bar" "b"; Runtime.On "foo" "a"]
        (Runtime.make_event_system main_events, [])
  ∧ Hana.on main_events foo_s "a"
      (Hana.on main_events bar_s "b"
         (Hana.make_event_system main_events, @nil string))
    = Hana.on main_events bar_s "b"
        (Hana.on main_events foo_s "a"
           (Hana.make_event_system main_events, [])).
Proof.
  assert ("foo" ≠ "bar") as He by discriminate.
  assert (foo_s ≠ bar_s) as Hk by discriminate.
  split; [by split|].
  destruct (calls_on_different_events_commute record main_events
              (Runtime.make_event_system main_events)
              (Hana.make_event_system main_events)
              "foo" "bar" foo_s bar_s "a" "b" [] He Hk) as (H1 & _ & H2 & _).
  split; [exact H1|exact H2].
Defined.

(** X6.  In hana.cpp, after any built client has worked on a freshly
    constructed object, the keys of the index are the events read as C
    strings (cut at their first NUL); the pointer stored for a text points
    at the vector of an event that reads as that text; and no two texts
    share a vector.  When no event holds a NUL, the keys of the index are
    the events, and the index sends each to the address of its own
    vector. *)
Theorem hana_index_exact_and_injective {World Callback : Type}
    (call : Callback → World → World) (Events : list string)
    (b : list (Hana.built_stmt Callback Events))
    (h : Hana.event_system Callback Events) (u0 u : World) :
  Hana.run call Events b (Hana.make_event_system Events, u0) = Done (h, u) →
  dom (Hana.dynamic_ h) = list_to_set (to_std_string <$> Events)
  ∧ (∀ s a, Hana.dynamic_ h !! s = Some a →
            ∃ e, Events !! fin_to_nat a = Some e ∧ to_std_string e = s)
  ∧ (∀ s1 s2 a, Hana.dynamic_ h !! s1 = Some a →
                Hana.dynamic_ h !! s2 = Some a → s1 = s2)
  ∧ (Forall nul_free Events →
     dom (Hana.dynamic_ h) = list_to_set Events
     ∧ ∀ k, Hana.dynamic_ h !! Hana.c_str k
            = Some (Hana.address_of Events k)).
Proof.
  intros Hh.
  assert (∀ s a, Hana.dynamic_ h !! s = Some a →
                 ∃ e, Events !! fin_to_nat a = Some e ∧ to_std_string e = s)
    as Hpoint.
  { intros s a. rewrite (hana_run_dynamic _ _ _ _ _ _ _ Hh).
    intros ([e known] & Hs & ->)%hana_ctor_dynamic_Some.
    exists e. split; [apply at_key_lookup|exact Hs]. }
  assert (dom (Hana.dynamic_ h) = list_to_set (to_std_string <$> Events))
    as Hdom.
  { rewrite (hana_run_dynamic _ _ _ _ _ _ _ Hh). apply hana_ctor_dom_texts. }
  split; [exact Hdom|]. split; [exact Hpoint|]. split.
  - intros s1 s2 a (e1 & H1 & <-)%Hpoint (e2 & H2 & <-)%Hpoint. congruence.
  - intros Hfree. split.
    + by rewrite Hdom, nul_free_fmap.
    + intros k.
      by rewrite (hana_run_bridge _ _ _ _ _ _ _ Hfree Hh), check_key_c_str.
Qed.

Lemma hana_index_exact_and_injective_witness :
  ∃ h u,
    Hana.run record nul_events [Hana.BOn nul_events a_nul_c_s "cb"]
      (Hana.make_event_system nul_events, []) = Done (h, u)
    ∧ dom (Hana.dynamic_ h) = list_to_set (to_std_string <$> nul_events)
    ∧ ∀ s1 s2 a, Hana.dynamic_ h !! s1 = Some a →
                 Hana.dynamic_ h !! s2 = Some a → s1 = s2.
Proof.
  assert (∃ h u, Hana.run record nul_events
                   [Hana.BOn nul_events a_nul_c_s "cb"]
                   (Hana.make_event_system nul_events, []) = Done (h, u))
    as (h & u & Hh) by (eexists _, _; vm_compute; reflexivity).
  exists h, u. split; [exact Hh|].
  destruct (hana_index_exact_and_injective record nul_events _ _ _ _ Hh)
    as (Hdom & _ & Hinj & _).
  split; [exact Hdom|exact Hinj].
Defined.

(** X7.  A built client of hana.cpp, run from a freshly constructed
    object, returns exactly when every text it hands to
    [trigger(std::string const&)] is one of [Events] read as a C string
    (cut at its first NUL); its calls of [on] and of [trigger] on keys put
    no condition. *)
Theorem hana_client_returns_iff_strings_known {World Callback : Type}
    (call : Callback → World → World) (Events : list string)
    (b : list (Hana.built_stmt Callback Events)) (w : World) :
  (∃ h w', Hana.run call Events b (Hana.make_event_system Events, w)
           = Done (h, w'))
  ↔ Forall (λ bs, match bs with
                  | Hana.BTriggerStr _ event =>
                      event ∈ to_std_string <$> Events
                  | _ => True
                  end) b.
Proof.
  rewrite <- hana_run_known, hana_ctor_dom_texts. apply Forall_proper; [|done].
  intros [e c|e|event]; [done|done|]. by rewrite elem_of_list_to_set.
Qed.

Lemma hana_client_returns_iff_strings_known_witness :
  (∃ h w', Hana.run record main_events hana_main_built
             (Hana.make_event_system main_events, []) = Done (h, w'))
  ∧ ∃ h w', Hana.run record nul_events
              [Hana.BOn nul_events a_nul_b_s "cb";
               Hana.BTriggerStr nul_events "a"]
              (Hana.make_event_system nul_events, []) = Done (h, w').
Proof.
  split.
  - apply (proj2 (hana_client_returns_iff_strings_known record main_events
                    hana_main_built [])).
    repeat constructor.
  - apply (proj2 (hana_client_returns_iff_strings_known record nul_events
                    [Hana.BOn nul_events a_nul_b_s "cb";
                     Hana.BTriggerStr nul_events "a"] [])).
    repeat constructor.
Defined.

(** X8.  A client of hana.cpp that builds and the same client written
    against runtime.cpp end alike from freshly constructed objects,
    provided that no event holds a NUL if the client calls
    [trigger(std::string const&)].  Either both return, in the same world,
    and then the two objects hold the same vector for every key; or both
    fail an assertion, with the same message and in the same world. *)
Theorem built_client_ends_as_in_runtime {World Callback : Type}
    (call : Callback → World → World) (Events : list string)
    (p : list (Hana.stmt Callback))
    (b : list (Hana.built_stmt Callback Events)) (w : World) :
  (∀ event, Hana.TriggerStr event ∈ p → Forall nul_free Events) →
  Hana.build Events p = Some b →
  match Runtime.run call (Hana.to_runtime <$> p)
          (Runtime.make_event_system Events, w),
        Hana.run call Events b (Hana.make_event_system Events, w) with
  | Done (r, w1), Done (h, w2) =>
      w1 = w2
      ∧ ∀ k, Runtime.map_ r !! Hana.c_str k
             = Some (Hana.map_ h !!! Hana.address_of Events k)
  | Aborted m1 w1, Aborted m2 w2 => m1 = m2 ∧ w1 = w2
  | _, _ => False
  end.
Proof.
  intros Hfree Hb.
  assert (∀ event, Hana.TriggerStr event ∈ p →
            ∀ x : string,
              Hana.dynamic_ (Hana.make_event_system (Callback:=Callback) Events)
                !! x
              = Hana.address_of Events <$> Hana.check_key Events x) as Hbr.
  { intros event Hin x. apply hana_ctor_dynamic. by apply (Hfree event). }
  pose proof (sim_run call Events p b (Runtime.make_event_system Events)
                (Hana.make_event_system Events) w Hb Hbr (sim_ctor Events))
    as Hsim.
  destruct (Runtime.run _ _ _) as [[r w1]|m1 w1],
           (Hana.run _ _ _ _) as [[h w2]|m2 w2]; try done.
  destruct Hsim as (-> & _ & Hrel). split; [done|].
  intros k. by rewrite Hrel, check_key_c_str.
Qed.

Lemma built_client_ends_as_in_runtime_witness :
  ((∀ event, Hana.TriggerStr event
               ∈ hana_main ++ [Hana.TriggerStr (Callback:=string) "unknown"] →
             Forall nul_free main_events)
   ∧ Hana.build main_events (hana_main ++ [Hana.TriggerStr "unknown"])
     = Some (hana_main_built ++ [Hana.BTriggerStr main_events "unknown"]))
  ∧ Runtime.run record
      (Hana.to_runtime <$> hana_main ++ [Hana.TriggerStr "unknown"])
      (Runtime.make_event_system main_events, [])
    = Aborted "trying to trigger an unknown event"
        ["foo triggered!"; "foo again!"; "bar triggered!"; "baz triggered!"]
  ∧ Hana.run record main_events
      (hana_main_built ++ [Hana.BTriggerStr main_events "unknown"])
      (Hana.make_event_system main_events, [])
    = Aborted "trying to trigger an unknown event"
        ["foo triggered!"; "foo again!"; "bar triggered!"; "baz triggered!"].
Proof.
  assert (∀ event, Hana.TriggerStr event
                     ∈ hana_main ++ [Hana.TriggerStr (Callback:=string) "unknown"] →
                   Forall nul_free main_events) as Hfree
    by (intros event _; repeat constructor).
  assert (Hana.build main_events (hana_main ++ [Hana.TriggerStr "unknown"])
          = Some (hana_main_built ++ [Hana.BTriggerStr main_events "unknown"]))
    as Hb by (vm_compute; reflexivity).
  split; [by split|].
  pose proof (built_client_ends_as_in_runtime record main_events _ _ []
                Hfree Hb) as Hsim.
  destruct (Runtime.run _ _ _) as [[r w1]|m1 w1] eqn:Hr; [vm_compute in Hr; done|].
  destruct (Hana.run _ _ _ _) as [[h w2]|m2 w2] eqn:Hh; [done|].
  destruct Hsim as [<- <-]. vm_compute in Hr. injection Hr as <- <-.
  split; reflexivity.
Defined.

(** X9.  The check at build time rejects no client that would have
    returned under runtime.cpp.  When the client written against
    runtime.cpp returns from a freshly constructed object, the client
    builds against hana.cpp, and, provided that no event holds a NUL if
    the client calls [trigger(std::string const&)], it returns there in
    the same world.  So a client that does not build fails an assertion
    under runtime.cpp. *)
Theorem build_rejects_only_failing_clients {World Callback : Type}
    (call : Callback → World → World) (Events : list string)
    (p : list (Hana.stmt Callback)) (w : World) :
  (∀ r w', Runtime.run call (Hana.to_runtime <$> p)
             (Runtime.make_event_system Events, w) = Done (r, w') →
     ∃ b, Hana.build Events p = Some b
          ∧ ((∀ event, Hana.TriggerStr event ∈ p →
                       Forall nul_free Events) →
             ∃ h, Hana.run call Events b (Hana.make_event_system Events, w)
                  = Done (h, w')))
  ∧ (Hana.build Events p = None →
     ∃ msg w', Runtime.run call (Hana.to_runtime <$> p)
                 (Runtime.make_event_system Events, w) = Aborted msg w').
Proof.
  assert (∀ r w', Runtime.run call (Hana.to_runtime <$> p)
                    (Runtime.make_event_system Events, w) = Done (r, w') →
            is_Some (Hana.build Events p)) as Hbuilds.
  { intros r w' Hr. apply build_is_Some.
    pose proof (runtime_run_Done_known _ _ _ _ _ _ Hr) as Hk.
    rewrite runtime_ctor_dom in Hk. apply list.Forall_fmap in Hk.
    eapply list.Forall_impl; [exact Hk|].
    intros [e c|e|event]; simpl; intros He%elem_of_list_to_set;
      by repeat constructor. }
  split.
  - intros r w' Hr. destruct (Hbuilds r w' Hr) as [b Hb]. exists b.
    split; [exact Hb|]. intros Hfree.
    pose proof (built_client_agrees_with_runtime call Events p b w Hfree Hb)
      as Hsim.
    rewrite Hr in Hsim.
    destruct (Hana.run call Events b (Hana.make_event_system Events, w))
      as [[h w2]|m2 w2] eqn:Hh; [|done].
    subst w2. by exists h.
  - intros Hnone.
    destruct (Runtime.run call (Hana.to_runtime <$> p)
                (Runtime.make_event_system Events, w))
      as [[r w']|msg w'] eqn:Hr.
    + destruct (Hbuilds r w' eq_refl) as [b Hb]. congruence.
    + by exists msg, w'.
Qed.

Lemma build_rejects_only_failing_clients_witness :
  Hana.build main_events (hana_main ++ [Hana.Trigger "unknown"]) = None
  ∧ ∃ msg w', Runtime.run record
                (Hana.to_runtime <$> hana_main ++ [Hana.Trigger "unknown"])
                (Runtime.make_event_system main_events, [])
              = Aborted msg w'.
Proof.
  assert (Hana.build main_events (hana_main ++ [Hana.Trigger "unknown"]) = None)
    as Hb by (vm_compute; reflexivity).
  split; [exact Hb|].
  exact (proj2 (build_rejects_only_failing_clients record main_events
                  (hana_main ++ [Hana.Trigger "unknown"]) []) Hb).
Defined.

(** ** The loops of the benchmark *)

Section bench_facts.
Context {World Callback : Type}.
Variable call : Callback → World → World.
Variables foo_cb bar_cb baz_cb : Callback.

(** The object of the benchmark once its three callbacks are registered. *)
Local Abbreviation bench_object :=
  (fst (Hana.on main_events baz_s baz_cb
          (Hana.on main_events bar_s bar_cb
             (Hana.on main_events foo_s foo_cb
                (Hana.make_event_system (Callback:=Callback) main_events,
                 tt))))).

Lemma bench_setup_runs (w : World) :
  Hana.run call main_events (Bench.setup foo_cb bar_cb baz_cb)
    (Hana.make_event_system main_events, w)
  = Done (bench_object, w).
Proof. reflexivity. Qed.

Lemma bench_string_round (u : World) :
  Hana.run call main_events Bench.string_round (bench_object, u)
  = Done (bench_object,
          Bench.direct_round call foo_cb bar_cb baz_cb u).
Proof. vm_compute. reflexivity. Qed.

Lemma bench_static_round (u : World) :
  Hana.run call main_events Bench.static_round (bench_object, u)
  = Done (bench_object,
          Bench.direct_round call foo_cb bar_cb baz_cb u).
Proof. vm_compute. reflexivity. Qed.

Lemma for_loop_iter {S : Type} (body : S * World → outcome World (S * World))
    (f : World → World) (s : S) :
  (∀ u, body (s, u) = Done (s, f u)) →
  ∀ n u, for_loop n body (s, u) = Done (s, Nat.iter n f u).
Proof.
  intros Hbody. induction n as [|n IH]; intros u; [done|].
  cbn [for_loop]. rewrite Hbody. cbn [bind_outcome].
  by rewrite IH, Nat.iter_succ_r.
Qed.

End bench_facts.

(** X10.  The benchmark of hana.cpp compares like with like.  When
    [foo_fun], [bar_fun] and [baz_fun] do what the callbacks given to [on]
    do, then for every number of rounds: registering the callbacks
    returns; from the object so set up the loop over
    [trigger(std::string const&)] and the loop over the member template
    both return, leave the object as it was, and have changed the world
    exactly as the loop of direct calls changes it; and [main] returns,
    in the world of three such loops. *)
Theorem benchmark_loops_do_the_same_work {World Callback : Type}
    (call : Callback → World → World)
    (foo_cb bar_cb baz_cb foo_fun bar_fun baz_fun : Callback)
    (n : nat) (w : World) :
  (∀ u, call foo_fun u = call foo_cb u) →
  (∀ u, call bar_fun u = call bar_cb u) →
  (∀ u, call baz_fun u = call baz_cb u) →
  ∃ h,
    Hana.run call main_events (Bench.setup foo_cb bar_cb baz_cb)
      (Hana.make_event_system main_events, w) = Done (h, w)
    ∧ (∀ u, Bench.string_loop call n (h, u)
            = Done (h, Bench.direct_loop call foo_fun bar_fun baz_fun n u))
    ∧ (∀ u, Bench.static_loop call n (h, u)
            = Done (h, Bench.direct_loop call foo_fun bar_fun baz_fun n u))
    ∧ Bench.main call foo_cb bar_cb baz_cb foo_fun bar_fun baz_fun n w
      = Done (h, Bench.direct_loop call foo_fun bar_fun baz_fun n
                   (Bench.direct_loop call foo_fun bar_fun baz_fun n
                      (Bench.direct_loop call foo_fun bar_fun baz_fun n w))).
Proof.
  intros Hfoo Hbar Hbaz.
  assert (∀ u, Bench.direct_round call foo_cb bar_cb baz_cb u
               = Bench.direct_round call foo_fun bar_fun baz_fun u) as Hround.
  { intros u. unfold Bench.direct_round. by rewrite !Hfoo, !Hbar, Hbaz. }
  set (h := fst (Hana.on main_events baz_s baz_cb
                   (Hana.on main_events bar_s bar_cb
                      (Hana.on main_events foo_s foo_cb
                         (Hana.make_event_system main_events, tt))))).
  assert (Hana.run call main_events (Bench.setup foo_cb bar_cb baz_cb)
            (Hana.make_event_system main_events, w) = Done (h, w)) as Hsetup
    by apply bench_setup_runs.
  assert (∀ u, Bench.string_loop call n (h, u)
               = Done (h, Bench.direct_loop call foo_fun bar_fun baz_fun n u))
    as Hstring.
  { intros u. apply for_loop_iter. intros v.
    rewrite <- Hround. apply bench_string_round. }
  assert (∀ u, Bench.static_loop call n (h, u)
               = Done (h, Bench.direct_loop call foo_fun bar_fun baz_fun n u))
    as Hstatic.
  { intros u. apply for_loop_iter. intros v.
    rewrite <- Hround. apply bench_static_round. }
  exists h. split; [exact Hsetup|]. split; [exact Hstring|].
  split; [exact Hstatic|].
  unfold Bench.main. rewrite Hsetup. cbn [bind_outcome].
  rewrite Hstring. cbn [bind_outcome]. rewrite Hstatic. reflexivity.
Qed.

Lemma benchmark_loops_do_the_same_work_witness :
  ((∀ u : nat, (λ (_ : unit) (x : nat), x) tt u = u)
   ∧ (∀ u : nat, (λ (_ : unit) (x : nat), x) tt u = u)
   ∧ (∀ u : nat, (λ (_ : unit) (x : nat), x) tt u = u))
  ∧ ∃ h, Bench.main (λ (_ : unit) (x : nat), x) tt tt tt tt tt tt 3 0
         = Done (h, 0).
Proof.
  assert (∀ u : nat, (λ (_ : unit) (x : nat), x) tt u = u) as Hnoop
    by (intros u; reflexivity).
  split; [done|].
  destruct (benchmark_loops_do_the_same_work (λ (_ : unit) (x : nat), x)
              tt tt tt tt tt tt 3 0 Hnoop Hnoop Hnoop) as (h & _ & _ & _ & Hmain).
  exists h. exact Hmain.
Defined.
